(** * Verification of the movie-page refactoring scripts

    Two Python scripts are embedded here:
    - [refactor_movie_pages.py]: a six-step textual rewriting of a movie page
      (module [Refactor]);
    - [remove-movie-code.py]: deletion of hard-coded line ranges from one file
      (module [RemoveMovieCode]).

    Text is modelled as the list of its UTF-8 bytes.  Both scripts read and
    write with [encoding='utf-8'], every pattern they search for is plain
    ASCII, and UTF-8 is self-synchronising, so searching the byte sequence
    finds exactly the occurrences Python finds on the code points.  A file's
    content is the text Python sees after decoding and after the translation
    of line endings to [\n] that text mode performs.

    The definitions come first; the facts follow, per script, with the
    further facts about the deletion script ([RemoveMore]), the run and the
    rule table ([RefactorMore]), steps 3 and 4 ([RewriteFacts]), the block
    patterns ([BlockFacts]) and the six steps together ([PipelineFacts]) at
    the end. *)

From Stdlib Require Import Ascii String ZArith Lia.
From stdpp Require Import gmap strings list.

Local Open Scope nat_scope.

(** ** Text: Python [str] operations used by the scripts *)

Module Text.

Abbreviation text := (list ascii).

(** A string literal of the source, as text. *)
Definition T (s : string) : text := list_ascii_of_string s.

(** The line feed, written [\n] in the source. *)
Definition nl : text := ["010"%char].

(** [s.startswith(m)]: the comparison every search below performs at one
    position. *)
Fixpoint is_prefix (m s : text) : bool :=
  match m, s with
  | [], _ => true
  | _ :: _, [] => false
  | a :: m', b :: s' => Ascii.eqb a b && is_prefix m' s'
  end.

(** [m in s]. *)
Fixpoint contains (m s : text) : bool :=
  is_prefix m s || match s with [] => false | _ :: s' => contains m s' end.

(** The left-to-right scan of [str.replace] for a non-empty [old]: at a
    position where [old] starts, [new] is emitted and the scan resumes after
    the occurrence ([skip] counts the characters of the occurrence still to
    pass over); elsewhere the character is copied. *)
Fixpoint replace_from (old new : text) (skip : nat) (s : text) : text :=
  match s with
  | [] => []
  | c :: s' =>
      match skip with
      | S k => replace_from old new k s'
      | O =>
          if is_prefix old s
          then new ++ replace_from old new (length old - 1) s'
          else c :: replace_from old new 0 s'
      end
  end.

(** [s.replace(old, new)].  With an empty [old] Python puts [new] before
    every character and at the end. *)
Definition replace (old new s : text) : text :=
  match old with
  | [] => new ++ flat_map (fun c => c :: new) s
  | _ :: _ => replace_from old new 0 s
  end.

(** [sep.join(pieces)]. *)
Fixpoint join (sep : text) (pieces : list text) : text :=
  match pieces with
  | [] => []
  | [p] => p
  | p :: ps => p ++ sep ++ join sep ps
  end.

(** The text made of the given lines, each ended by a line feed. *)
Definition unlines (ls : list text) : text := flat_map (fun l => l ++ nl) ls.

(** The number of positions of [s] at which [q] starts. *)
Fixpoint occs (q s : text) : nat :=
  match s with
  | [] => if q is [] then 1 else 0
  | _ :: s' => (if is_prefix q s then 1 else 0) + occs q s'
  end.

(** [s.find(t)]: the first position at which [t] starts, if any. *)
Fixpoint find (t s : text) : option nat :=
  if is_prefix t s then Some 0
  else match s with
       | [] => None
       | _ :: s' => S <$> find t s'
       end.

(** Finding the texts of [ts] one after the other, each from the end of the
    one before: the distance to the end of the last one. *)
Fixpoint chain_end (ts : list text) (s : text) : option nat :=
  match ts with
  | [] => Some 0
  | t :: ts' =>
      match find t s with
      | Some k =>
          (fun n => k + length t + n)
          <$> chain_end ts' (drop (k + length t) s)
      | None => None
      end
  end.

(** [q] cannot lie across a border of an inserted [m]: no proper non-empty
    end of [q] starts [m] or is started by [m], and no proper non-empty
    beginning of [q] ends [m]. *)
Definition apart (q m : text) : Prop :=
  ∀ x y, x ≠ [] → y ≠ [] → q = x ++ y →
    ¬ x `suffix_of` m ∧ ¬ y `prefix_of` m ∧ ¬ m `prefix_of` y.

Definition is_suffix (x m : text) : bool := is_prefix (reverse x) (reverse m).

(** The decision procedure for [apart], by trying every cut of [q]. *)
Definition apartb (q m : text) : bool :=
  forallb (fun k =>
      negb (is_suffix (take k q) m)
      && negb (is_prefix (drop k q) m)
      && negb (is_prefix m (drop k q)))
    (seq 1 (length q - 1)).

(** The conditions under which the occurrences of [q] can be counted across
    a replacement of [m] by [r]: [m] cannot overlap itself, and [q] cannot
    lie across a border of [m] or of [r]. *)
Definition separable (q m r : text) : bool :=
  negb (bool_decide (q = [])) && negb (bool_decide (m = []))
  && apartb m m && apartb q m && apartb q r.

(** Replacing [m] by [r] neither removes nor forms an occurrence of [q]. *)
Definition inert (q m r : text) : bool :=
  separable q m r && (occs q m =? 0) && (occs q r =? 0).

(** Replacing [m] removes no occurrence of [q]: [q] neither holds [m] nor
    overlaps it. *)
Definition kept (q m : text) : bool :=
  negb (bool_decide (q = [])) && negb (bool_decide (m = []))
  && apartb m m && apartb q m && (occs q m =? 0).

(** Replacing [m] by [r] forms no occurrence of [q]: [r] neither holds [q]
    nor completes one with the text around it. *)
Definition forms_none (q m r : text) : bool :=
  negb (bool_decide (q = [])) && negb (bool_decide (m = []))
  && apartb m m && apartb q r && (occs q r =? 0).

(** A sequence of [replace], first pair first. *)
Definition replace_all (rs : list (text * text)) (s : text) : text :=
  foldl (fun s mr => replace mr.1 mr.2 s) s rs.

(** What a sequence of replacements adds to the number of occurrences of
    [q]: for every pair, the occurrences of its pattern in the text the
    sequence starts from, times the occurrences of [q] in its replacement. *)
Fixpoint gain (q : text) (rs : list (text * text)) (s : text) : nat :=
  match rs with
  | [] => 0
  | mr :: rs' => occs mr.1 s * occs q mr.2 + gain q rs' s
  end.

(** The conditions under which [gain] counts right: no pair removes an
    occurrence of [q] or forms one across a border, and a pair whose
    replacement holds [q] has its pattern left alone by the pairs before
    it. *)
Fixpoint countable (q : text) (rs : list (text * text)) : bool :=
  match rs with
  | [] => true
  | mr :: rs' =>
      separable q mr.1 mr.2 && (occs q mr.1 =? 0)
      && forallb (fun mr' => (occs q mr'.2 =? 0) || inert mr'.1 mr.1 mr.2) rs'
      && countable q rs'
  end.

End Text.

(** ** The fragment of Python's [re] module the scripts use *)

Module Regex.
Import Text.

(** The patterns of the scripts consist of literal characters (escaped or
    not) and of [.*] and [.*?]. *)
Inductive atom : Type :=
  | Lit (c : ascii)
  | Star (greedy dotall : bool).

Abbreviation regex := (list atom).

Definition is_alnum (c : ascii) : bool :=
  let n := nat_of_ascii c in
  ((48 <=? n) && (n <=? 57)) || ((65 <=? n) && (n <=? 90))
  || ((97 <=? n) && (n <=? 122)).

(** Characters with a meaning of their own in a pattern. *)
Definition is_special (c : ascii) : bool :=
  existsb (Ascii.eqb c) (T ".^$*+?{}[]\|()").

(** Reading a pattern: [\n] is the line feed, a backslash before any other
    character that is not alphanumeric makes that character literal, [.*]
    and [.*?] are the two repetitions of the dot.  Any other construct is
    outside the fragment and yields [None]. *)
Fixpoint parse (dotall : bool) (fuel : nat) (p : text) : option regex :=
  match fuel with
  | O => None
  | S fuel =>
      match p with
      | [] => Some []
      | "\"%char :: c :: p' =>
          if Ascii.eqb c "n" then (Lit "010" ::.) <$> parse dotall fuel p'
          else if is_alnum c then None
          else (Lit c ::.) <$> parse dotall fuel p'
      | "."%char :: "*"%char :: "?"%char :: p' =>
          (Star false dotall ::.) <$> parse dotall fuel p'
      | "."%char :: "*"%char :: p' =>
          (Star true dotall ::.) <$> parse dotall fuel p'
      | c :: p' =>
          if is_special c then None else (Lit c ::.) <$> parse dotall fuel p'
      end
  end.

(** [re.compile(pattern, flags)], with [dotall] for [re.DOTALL].  Every
    pattern of the scripts is in the fragment (see [block_patterns_compile]
    and [replacement_patterns] below), so the empty default is never taken. *)
Definition compile (dotall : bool) (pattern : text) : regex :=
  default [] (parse dotall (S (length pattern)) pattern).

(** What the dot accepts. *)
Definition dot_ok (dotall : bool) (c : ascii) : bool :=
  dotall || negb (Ascii.eqb c "010").

(** The backtracking matcher anchored at the head of [s]: the length of the
    first match in priority order.  A greedy star tries the longest run
    first, a lazy one the shortest. *)
Fixpoint match_here (r : regex) : text → option nat :=
  match r with
  | [] => fun _ => Some 0
  | Lit c :: r' => fun s =>
      match s with
      | b :: s' => if Ascii.eqb c b then S <$> match_here r' s' else None
      | [] => None
      end
  | Star greedy dotall :: r' =>
      fix star (s : text) : option nat :=
        match s with
        | [] => match_here r' []
        | b :: s' =>
            if greedy then
              if dot_ok dotall b then
                match star s' with
                | Some n => Some (S n)
                | None => match_here r' s
                end
              else match_here r' s
            else
              match match_here r' s with
              | Some n => Some n
              | None => if dot_ok dotall b then S <$> star s' else None
              end
        end
  end.

(** [re.search]: the leftmost position with a match, and the length
    matched there. *)
Fixpoint search (r : regex) (s : text) : option (nat * nat) :=
  match match_here r s with
  | Some n => Some (0, n)
  | None =>
      match s with
      | [] => None
      | _ :: s' => prod_map S id <$> search r s'
      end
  end.

(** [re.sub] with a replacement free of backslashes (every replacement of
    the scripts is), scanning like [replace_from].  No pattern of the
    scripts matches the empty string (each starts with a literal), so the
    zero-length branches are not exercised. *)
Fixpoint sub_from (r : regex) (repl : text) (skip : nat) (s : text) : text :=
  match s with
  | [] =>
      match skip, match_here r [] with
      | O, Some _ => repl
      | _, _ => []
      end
  | c :: s' =>
      match skip with
      | S k => sub_from r repl k s'
      | O =>
          match match_here r s with
          | Some (S n) => repl ++ sub_from r repl n s'
          | Some O => repl ++ c :: sub_from r repl 0 s'
          | None => c :: sub_from r repl 0 s'
          end
      end
  end.

Definition sub (r : regex) (repl s : text) : text := sub_from r repl 0 s.

(** [re.search(r, s) is not None]. *)
Definition found (r : regex) (s : text) : bool :=
  if search r s is Some _ then true else false.

(** The literal text with which every match of a pattern starts. *)
Fixpoint literal_head (r : regex) : text :=
  match r with
  | Lit c :: r' => c :: literal_head r'
  | _ => []
  end.

(** For each text of [ts], [.*?] under [re.DOTALL] and that text. *)
Definition tail_chain (ts : list text) : regex :=
  flat_map (fun t => Star false true :: (Lit <$> t)) ts.

(** The pattern that is the text [h] followed by such a chain. *)
Definition lazy_chain (h : text) (ts : list text) : regex :=
  (Lit <$> h) ++ tail_chain ts.

(** The text of a pattern made of literal characters only. *)
Fixpoint lits_of (r : regex) : option text :=
  match r with
  | [] => Some []
  | Lit c :: r' => (c ::.) <$> lits_of r'
  | Star _ _ :: _ => None
  end.

End Regex.

(** ** Calls that return or raise *)

Module Py.
Import Text.

Inductive exn : Type :=
  | KeyError (key : text)
  | FileNotFoundError (path : text).

Inductive outcome (A : Type) : Type :=
  | Returned (a : A)
  | Raised (e : exn).
Arguments Returned {A} a.
Arguments Raised {A} e.

#[export] Instance outcome_ret : MRet outcome := fun A a => Returned a.
#[export] Instance outcome_bind : MBind outcome := fun A B k c =>
  match c with
  | Returned a => k a
  | Raised e => Raised e
  end.

End Py.

(** ** refactor_movie_pages.py *)

Module Refactor.
Import Text Regex Py.

(** One entry of [EFFECTS]. *)
Record Config : Type := {
  old_import : text;
  new_import : text;
  config_type : text;
  default_config : text;
  effect_name : text;
  ref_name : text;
  handle_type : text;
}.

(** A Python dict literal with string keys, in source order. *)
Fixpoint dict_get {V : Type} (d : list (text * V)) (k : text) : option V :=
  match d with
  | [] => None
  | (k', v) :: d' => if decide (k = k') then Some v else dict_get d' k
  end.

Definition turntable_rule : Config := {|
  old_import := T "from '../../effects/turntable/TurnTableEffect';";
  new_import :=
    T "// import { TurnTableEffect } from '../../effects/turntable/TurnTableEffect'; // OLD: direct management"
    ++ nl
    ++ T "import MovieTurntablePlayer, { type TurntableMovieHandle } from '../../effects/turntable/MovieTurntablePlayer'; // NEW: headless controller";
  config_type := T "TurnTableConfig";
  default_config := T "DEFAULT_CONFIG";
  effect_name := T "Turntable";
  ref_name := T "turntablePlayerRef";
  handle_type := T "TurntableMovieHandle" |}.

Definition reveal_rule : Config := {|
  old_import := T "from '../../effects/reveal/RevealEffect';";
  new_import :=
    T "// import { RevealEffect } from '../../effects/reveal/RevealEffect'; // OLD: direct management"
    ++ nl
    ++ T "import MovieRevealPlayer, { type RevealMovieHandle } from '../../effects/reveal/MovieRevealPlayer'; // NEW: headless controller";
  config_type := T "RevealConfig";
  default_config := T "DEFAULT_CONFIG";
  effect_name := T "Reveal";
  ref_name := T "revealPlayerRef";
  handle_type := T "RevealMovieHandle" |}.

Definition orbit_rule : Config := {|
  old_import := T "from '../../effects/orbit/OrbitEffect';";
  new_import :=
    T "// import { OrbitEffect } from '../../effects/orbit/OrbitEffect'; // OLD: direct management"
    ++ nl
    ++ T "import MovieOrbitPlayer, { type OrbitMovieHandle } from '../../effects/orbit/MovieOrbitPlayer'; // NEW: headless controller";
  config_type := T "OrbitConfig";
  default_config := T "DEFAULT_CONFIG";
  effect_name := T "Orbit";
  ref_name := T "orbitPlayerRef";
  handle_type := T "OrbitMovieHandle" |}.

Definition explosion_rule : Config := {|
  old_import := T "from '../../effects/explosion/ExplosionEffect';";
  new_import :=
    T "// import { ExplosionEffect } from '../../effects/explosion/ExplosionEffect'; // OLD: direct management"
    ++ nl
    ++ T "import MovieExplosionPlayer, { type ExplosionMovieHandle } from '../../effects/explosion/MovieExplosionPlayer'; // NEW: headless controller";
  config_type := T "ExplosionConfig";
  default_config := T "DEFAULT_CONFIG";
  effect_name := T "Explosion";
  ref_name := T "explosionPlayerRef";
  handle_type := T "ExplosionMovieHandle" |}.

Definition EFFECTS : list (text * Config) := [
  (T "turntable", turntable_rule);
  (T "reveal", reveal_rule);
  (T "orbit", orbit_rule);
  (T "explosion", explosion_rule)
].

(** *** Step 1: the import *)

Definition old_import_line (config : Config) : text :=
  T "import { " ++ effect_name config ++ T "Effect } " ++ old_import config.

Definition step1 (config : Config) (content : text) : text :=
  replace (old_import_line config) (new_import config) content.

(** *** Step 2: the state declaration *)

Definition old_state : text :=
  T "  const [activeEffectInstance, setActiveEffectInstance] = useState<any>(null);".

Definition new_state (config : Config) : text :=
  T "  const " ++ ref_name config ++ T " = useRef<" ++ handle_type config
  ++ T " | null>(null);".

Definition step2 (config : Config) (content : text) : text :=
  replace old_state (new_state config) content.

(** *** Step 3: the references to [activeEffectInstance] *)

Definition optional_chaining : text := T "activeEffectInstance\?\.".

Definition replacements (config : Config) : list (text * text) := [
  (T "activeEffectInstance\.play\(\)", ref_name config ++ T ".current?.play()");
  (T "activeEffectInstance\.pause\(\)", ref_name config ++ T ".current?.pause()");
  (T "activeEffectInstance\.stop\(\)", ref_name config ++ T ".current?.stop()");
  (T "activeEffectInstance\.dispose\(\)", ref_name config ++ T ".current?.dispose()");
  (T "activeEffectInstance\.getConfig\(\)", ref_name config ++ T ".current?.getConfig()");
  (T "activeEffectInstance\.setRecording\(", ref_name config ++ T ".current?.setRecording(");
  (T "activeEffectInstance\.setConfig\(", ref_name config ++ T ".current?.setConfig(");
  (T "if \(activeEffectInstance\)", T "if (" ++ ref_name config ++ T ".current)");
  (T "if \(!activeEffectInstance\)", T "if (!" ++ ref_name config ++ T ".current)");
  (T "activeEffectInstance \&\& \(", ref_name config ++ T ".current && (");
  (T "\{activeEffectInstance \&\&", T "{" ++ ref_name config ++ T ".current &&");
  (optional_chaining, ref_name config ++ T ".current?.")
].

(** [for pattern, replacement in replacements: content = re.sub(...)]. *)
Definition step3_from (rs : list (text * text)) (content : text) : text :=
  foldl (fun content pr => sub (compile false pr.1) pr.2 content) content rs.

Definition step3 (config : Config) (content : text) : text :=
  step3_from (replacements config) content.

(** *** Step 4: the blocks of manual effect management *)

Definition old_auto_activate_pattern : regex :=
  compile true (
    T "  // Auto-activate effect when context is ready\n"
    ++ T "  useEffect\(\(\) => \{.*?\n"
    ++ T "  \}, \[effectContext, activeEffectInstance, movie\]\);").

Definition old_activate_handler_pattern : regex :=
  compile true (
    T "  // Handle .* activation\n"
    ++ T "  const handleActivateEffect = .*?\n"
    ++ T "  \};").

Definition old_animation_loop_pattern : regex :=
  compile true (
    T "  // Animation loop - tick the active effect on every frame\n"
    ++ T "  useEffect\(\(\) => \{.*?\n"
    ++ T "  \}, \[.*?\]\);").

Definition old_autoplay_pattern : regex :=
  compile true (
    T "  // Auto-play effect when autoplay parameter is present\n"
    ++ T "  useEffect\(\(\) => \{.*?\n"
    ++ T "  \}, \[.*?\]\);").

Definition step4 (content : text) : text :=
  let content := sub old_auto_activate_pattern [] content in
  let content := sub old_activate_handler_pattern [] content in
  let content := sub old_animation_loop_pattern [] content in
  sub old_autoplay_pattern [] content.

(** *** Step 5: the config memo and [handleEffectComplete] *)

Definition insert_marker : text := T "  }, [solution, movie, from, mode]);".

Definition initial_config (config : Config) (effect_key : text) : text :=
  nl ++ unlines [
    T "  ";
    T "  // Compute initial " ++ effect_key ++ T " config (used by Movie" ++ effect_name config ++ T "Player)";
    T "  const initial" ++ effect_name config ++ T "Config: " ++ config_type config ++ T " = useMemo(() => {";
    T "    const baseConfig = movie?.effect_config || " ++ default_config config ++ T ";";
    T "    return {";
    T "      ...baseConfig,";
    T "      preserveControls: true,";
    T "    };";
    T "  }, [movie]);";
    [];
    T "  // Handle " ++ effect_name config ++ T "Effect completion (replaces setOnComplete)";
    T "  const handleEffectComplete = () => {";
    T "    const currentRecordingState = recordingStatusRef.current.state;";
    T "    console.log('🎬 " ++ effect_name config ++ T " effect completed. Recording state:', currentRecordingState);";
    T "    setIsPlaying(false);";
    T "    ";
    T "    // Capture thumbnail when effect completes (if not already captured)";
    T "    if (!thumbnailBlob && canvas && mode !== 'view') {";
    T "      requestAnimationFrame(() => requestAnimationFrame(() => {";
    T "        import('../../services/thumbnailService').then(({ captureCanvasScreenshot }) => {";
    T "          captureCanvasScreenshot(canvas).then(blob => {";
    T "            setThumbnailBlob(blob);";
    T "          }).catch(err => {";
    T "            console.error('❌ Failed to capture thumbnail:', err);";
    T "          });";
    T "        });";
    T "      }));";
    T "    }";
    T "    ";
    T "    // If recording, stop it and trigger download";
    T "    if (currentRecordingState === 'recording') {";
    T "      console.log('🎬 Effect complete during recording - stopping recording...');";
    T "      handleStopRecordingAndDownload();";
    T "    } else {";
    T "      // Show appropriate post-playback modal after 3 second delay";
    T "      setTimeout(() => {";
    T "        if (from === 'gallery') {";
    T "          setShowWhatsNext(true);";
    T "        } else if (from === 'share') {";
    T "          setShowShareWelcome(true);";
    T "        } else if (movie) {";
    T "          // Viewing a saved movie directly - show What's Next";
    T "          setShowWhatsNext(true);";
    T "        } else if (mode === 'create') {";
    T "          // Creating a new movie from manual solver - go directly to What's Next";
    T "          setShowWhatsNext(true);";
    T "        }";
    T "      }, 3000);";
    T "    }";
    T "  };"
  ].

Definition step5 (config : Config) (effect_key content : text) : text :=
  if contains insert_marker content
  then replace insert_marker (insert_marker ++ initial_config config effect_key)
         content
  else content.

(** *** Step 6: the headless controller *)

Definition canvas_marker : text :=
  T "        )}" ++ nl ++ T "        " ++ nl
  ++ T "        {/* Reveal / Explosion Sliders".

Definition controller_jsx (config : Config) (effect_key : text) : text :=
  join nl [
    T "        )}";
    [];
    T "        {/* Headless " ++ effect_key ++ T " controller (no visual) */}";
    T "        {effectContext && (";
    T "          <Movie" ++ effect_name config ++ T "Player";
    T "            ref={" ++ ref_name config ++ T "}";
    T "            effectContext={effectContext}";
    T "            baseConfig={initial" ++ effect_name config ++ T "Config}";
    T "            autoplay={autoplay}";
    T "            loop={false}";
    T "            onComplete={handleEffectComplete}";
    T "          />";
    T "        )}";
    T "        ";
    T "        {/* Reveal / Explosion Sliders"
  ].

Definition step6 (config : Config) (effect_key content : text) : text :=
  if contains canvas_marker content
  then replace canvas_marker (controller_jsx config effect_key) content
  else content.

(** The content [refactor_file] computes from the content it read. *)
Definition refactor_content (config : Config) (effect_key content : text)
  : text :=
  let content := step1 config content in
  let content := step2 config content in
  let content := step3 config content in
  let content := step4 content in
  let content := step5 config effect_key content in
  step6 config effect_key content.

(** *** What the steps look for *)

(** The optional-chaining access the last pattern of step 3 matches, and
    what it becomes. *)
Definition legacy_access : text := T "activeEffectInstance?.".

Definition rewritten_access (config : Config) : text :=
  ref_name config ++ T ".current?.".

(** The rewrites of step 3 that come before the optional-chaining one. *)
Definition earlier_replacements (config : Config) : list (text * text) :=
  take 11 (replacements config).

(** A rewrite of step 3 that neither removes nor adds an occurrence of [q]:
    its pattern is literal, and neither the pattern nor the replacement
    holds or overlaps [q]. *)
Definition leaves_alone (q : text) (pr : text * text) : bool :=
  match lits_of (compile false pr.1) with
  | Some m => separable q m pr.2 && (occs q m =? 0) && (occs q pr.2 =? 0)
  | None => false
  end.

(** The literal text a pattern of step 3 matches. *)
Definition literal (pr : text * text) : text :=
  default [] (lits_of (compile false pr.1)).

(** A rewrite of step 3 that leaves no occurrence of its own pattern. *)
Definition removes_own (pr : text * text) : bool :=
  match lits_of (compile false pr.1) with
  | Some m => separable m m pr.2 && (occs m pr.2 =? 0)
  | None => false
  end.

(** A rewrite of step 3 that creates no occurrence of [q]: its replacement
    neither holds [q] nor can form one with the text around it. *)
Definition adds_none (q : text) (pr : text * text) : bool :=
  match lits_of (compile false pr.1) with
  | Some m =>
      negb (bool_decide (q = [])) && negb (bool_decide (m = []))
      && apartb m m && apartb q pr.2 && (occs q pr.2 =? 0)
  | None => false
  end.

(** The pattern of a rewrite of step 3 is literal and holds [a]. *)
Definition mentions (a : text) (pr : text * text) : bool :=
  match lits_of (compile false pr.1) with
  | Some m => contains a m
  | None => false
  end.

(** Every rewrite of the list removes its pattern, and no later rewrite of
    the list brings it back. *)
Fixpoint each_gone (rs : list (text * text)) : bool :=
  match rs with
  | [] => true
  | pr :: rs' =>
      removes_own pr && forallb (adds_none (literal pr)) rs' && each_gone rs'
  end.

(** Steps 1 to 3 as replacements of literal text, in order. *)
Definition rewrites_before (config : Config) : list (text * text) :=
  (old_import_line config, new_import config)
  :: (old_state, new_state config)
  :: ((fun pr => (literal pr, pr.2)) <$> replacements config).

(** Steps 5 and 6 as replacements of literal text. *)
Definition rewrites_after (config : Config) (effect_key : text)
  : list (text * text) :=
  [ (insert_marker, insert_marker ++ initial_config config effect_key);
    (canvas_marker, controller_jsx config effect_key) ].

(** The method calls step 3 rewrites to the optional-chaining form. *)
Definition method_call_forms : list text :=
  [ T "activeEffectInstance.play()"; T "activeEffectInstance.pause()";
    T "activeEffectInstance.stop()"; T "activeEffectInstance.dispose()";
    T "activeEffectInstance.getConfig()";
    T "activeEffectInstance.setRecording(";
    T "activeEffectInstance.setConfig(" ].

Definition method_calls (content : text) : nat :=
  sum_list ((fun form => occs form content) <$> method_call_forms).

Definition block_patterns : list regex :=
  [ old_auto_activate_pattern; old_activate_handler_pattern;
    old_animation_loop_pattern; old_autoplay_pattern ].

(** How the comments that the four patterns of step 4 start with begin, in
    the order of [block_patterns].  Each stops short of a letter with which
    a replacement of steps 1 to 3 starts, so that no replacement can
    complete one. *)
Definition block_comments : list text :=
  [ T "// Auto-activate effect when";
    T "// Hand";
    T "// Animation loop";
    T "// Auto-play effect when" ].

(** None of these is in [content]. *)
Definition blocks_absent (content : text) : bool :=
  forallb (fun comment => negb (contains comment content)) block_comments.

(** No step finds its anchor, pattern or marker in [content]. *)
Definition anchors_absent (config : Config) (content : text) : bool :=
  negb (contains (old_import_line config) content)
  && negb (contains old_state content)
  && forallb (fun pr => negb (found (compile false pr.1) content))
       (replacements config)
  && forallb (fun r => negb (found r content)) block_patterns
  && negb (contains insert_marker content)
  && negb (contains canvas_marker content).

(** *** The file and the run *)

(** A [pathlib.Path] is the list of its components; the files are the
    regular files that exist, with the text [read_text] returns. *)
Abbreviation Path := (list (list ascii)).
Abbreviation files := (gmap (list (list ascii)) (list ascii)).

(** [filepath.name]. *)
Definition name (filepath : Path) : text := default [] (last filepath).

(** [refactor_file]: the files afterwards and the value returned.  The
    messages it prints are left out. *)
Definition refactor_file (fs : files) (filepath : Path) (effect_key : text)
  : outcome (files * bool) :=
  match fs !! filepath with
  | None => Returned (fs, false)
  | Some original_content =>
      match dict_get EFFECTS effect_key with
      | None => Raised (KeyError effect_key)
      | Some config =>
          let content := refactor_content config effect_key original_content in
          if decide (content = original_content)
          then Returned (fs, false)
          else Returned (<[filepath := content]> fs, true)
      end
  end.

(** [Path(__file__).parent] is the parameter [script_dir]. *)
Definition files_to_refactor (script_dir : Path) : list (Path * text) :=
  let base_path := script_dir ++ [T "src"; T "pages"; T "movies"] in
  [ (base_path ++ [T "TurntableMoviePage.tsx"], T "turntable");
    (base_path ++ [T "RevealMoviePage.tsx"], T "reveal");
    (base_path ++ [T "OrbitMoviePage.tsx"], T "orbit");
    (base_path ++ [T "ExplosionMoviePage.tsx"], T "explosion") ].

(** The loop of [main] over the files still to do, appending to [results]. *)
Fixpoint refactor_all (fs : files) (todo : list (Path * text))
    (results : list (text * bool)) : outcome (files * list (text * bool)) :=
  match todo with
  | [] => Returned (fs, results)
  | (filepath, effect_key) :: todo' =>
      '(fs', success) ← refactor_file fs filepath effect_key;
      refactor_all fs' todo' (results ++ [(name filepath, success)])
  end.

(** Whether [refactor_file] finds the file and changes its content. *)
Definition changed (fs : files) (filepath : Path) (effect_key : text) : bool :=
  match fs !! filepath, dict_get EFFECTS effect_key with
  | Some original_content, Some config =>
      bool_decide
        (refactor_content config effect_key original_content
         ≠ original_content)
  | _, _ => false
  end.

(** The lines of the summary, one per entry of [results]. *)
Definition summary (results : list (text * bool)) : list text :=
  (fun '(filename, success) =>
     (if success : bool then T "✅ SUCCESS" else T "❌ FAILED")
     ++ T ": " ++ filename) <$> results.

(** [main]: the files afterwards, [results] and the summary printed. *)
Definition main (script_dir : Path) (fs : files)
  : outcome (files * list (text * bool) * list text) :=
  '(fs', results) ← refactor_all fs (files_to_refactor script_dir) [];
  mret (fs', results, summary results).

End Refactor.

(** ** remove-movie-code.py *)

Module RemoveMovieCode.
Import Text Py.

Local Open Scope Z_scope.

(** Line ranges to delete (1-indexed, inclusive). *)
Definition DELETE_RANGES : list (Z * Z * text) := [
  (14, 14, T "getMovieById import");
  (20, 30, T "Movie Mode imports block");
  (33, 36, T "Movie type imports");
  (3, 3, T "createPortal import");
  (58, 62, T "Movie playback state");
  (141, 185, T "Movie Mode state variables");
  (546, 726, T "Load movie from URL");
  (728, 747, T "Detect shared link");
  (1829, 1849, T "Build effect context");
  (1851, 1875, T "Auto-activate effect");
  (2275, 2296, T "Tick loop for effects");
  (2298, 2370, T "Auto-play gallery movie");
  (2371, 2445, T "Sync auto-solution to movie mode");
  (2446, 2457, T "Save original state");
  (2459, 2531, T "Set onComplete callback");
  (2533, 2546, T "Cleanup on mode switch");
  (2548, 2560, T "Close effects dropdown");
  (2025, 2273, T "Effect handlers and credits handlers");
  (1877, 2023, T "Effect activation/clear/select handlers");
  (3333, 3398, T "CreditsModal and ChallengeOverlay JSX")
].

Definition input_file : text :=
  T "c:\Projects\Koos puzzle v1\src\pages\solve\SolvePage.tsx".
Definition output_file : text :=
  T "c:\Projects\Koos puzzle v1\src\pages\solve\SolvePage.tsx.cleaned".

(** [range(a, b)]. *)
Definition range (a b : Z) : list Z :=
  (fun i : nat => a + Z.of_nat i) <$> seq 0 (Z.to_nat (b - a)).

(** The set built by the two nested loops. *)
Definition lines_to_delete (ranges : list (Z * Z * text)) : gset Z :=
  foldl (fun (acc : gset Z) '(start, end_, desc) =>
           foldl (fun (acc : gset Z) line_num => acc ∪ {[line_num]})
                 acc (range (start - 1) end_))
        ∅ ranges.

(** [enumerate(lines)], counting from [i]. *)
Fixpoint enumerate_from {A : Type} (i : Z) (lines : list A) : list (Z * A) :=
  match lines with
  | [] => []
  | line :: lines' => (i, line) :: enumerate_from (i + 1) lines'
  end.

(** [[line for i, line in enumerate(lines) if i not in lines_to_delete]]. *)
Definition kept_lines {A : Type} (deleted : gset Z) (lines : list A) : list A :=
  (filter (fun p => p.1 ∉ deleted) (enumerate_from 0 lines)).*2.

(** The filtering of lines 51 to 59, for any list of ranges. *)
Definition delete_ranges {A : Type} (ranges : list (Z * Z * text))
    (lines : list A) : list A :=
  kept_lines (lines_to_delete ranges) lines.

(** A range cut at the number of lines of the document. *)
Definition clipped (n : nat) (r : Z * Z * text) : Z * Z * text :=
  (r.1.1, Z.min r.1.2 (Z.of_nat n), r.2).

(** [f.readlines()]: every line keeps its line feed; the last one may lack
    it. *)
Fixpoint readlines (s : text) : list text :=
  match s with
  | [] => []
  | c :: s' =>
      if Ascii.eqb c "010" then [c] :: readlines s'
      else match readlines s' with
           | [] => [[c]]
           | l :: ls => (c :: l) :: ls
           end
  end.

(** The files are keyed by the path string given to [open].  A file holds
    its text as the text mode of [open] gives it to the program and takes it
    from it: reading translates the line endings of the bytes to line feeds
    and writing turns line feeds into the line ending of the platform, so a
    file written reads back as the text written.  The bytes on disk are not
    modelled. *)
Abbreviation files := (gmap (list ascii) (list ascii)).

(** The three counts printed at the end. *)
Record report : Type := {
  original_lines : nat;
  lines_deleted : nat;
  remaining_lines : nat;
}.

(** [main], for any list of ranges in place of [DELETE_RANGES]. *)
Definition main_with (ranges : list (Z * Z * text)) (fs : files)
  : outcome (files * report) :=
  match fs !! input_file with
  | None => Raised (FileNotFoundError input_file)
  | Some content =>
      let lines := readlines content in
      let deleted := lines_to_delete ranges in
      let kept := kept_lines deleted lines in
      Returned (<[output_file := concat kept]> fs,
                {| original_lines := length lines;
                   lines_deleted := size deleted;
                   remaining_lines := length kept |})
  end.

Definition main (fs : files) : outcome (files * report) :=
  main_with DELETE_RANGES fs.

(** The comment above [DELETE_RANGES] read literally: line number [n],
    counted from 1, lies in some range, both ends included. *)
Definition covered (ranges : list (Z * Z * text)) (n : Z) : bool :=
  existsb (fun r => (r.1.1 <=? n) && (n <=? r.1.2)) ranges.

(** How many of the positions of a document of [n] lines are in the plan. *)
Definition in_plan (deleted : gset Z) (n : nat) : nat :=
  length (filter (fun i => i ∈ deleted) (seqZ 0 (Z.of_nat n))).

End RemoveMovieCode.

(** * Facts about text *)

Module TextFacts.
Import Text.

Lemma is_prefix_spec (m s : text) : is_prefix m s = true ↔ m `prefix_of` s.
Proof.
  revert s. induction m as [|a m IH]; intros [|b s]; simpl.
  - split; [intros _; apply prefix_nil | done].
  - split; [intros _; apply prefix_nil | done].
  - split; [done | intros H; by apply prefix_nil_not in H].
  - rewrite andb_true_iff, IH. split.
    + intros [Hab Hp]. apply Ascii.eqb_eq in Hab as ->. by apply prefix_cons.
    + intros Hp. split.
      * apply Ascii.eqb_eq. by apply prefix_cons_inv_1 in Hp.
      * by apply prefix_cons_inv_2 in Hp.
Qed.

Lemma is_prefix_false (m s : text) : is_prefix m s = false ↔ ¬ m `prefix_of` s.
Proof. rewrite <- is_prefix_spec. by destruct (is_prefix m s). Qed.

Lemma is_prefix_app (m s : text) : is_prefix m (m ++ s) = true.
Proof. apply is_prefix_spec. by apply prefix_app_r. Qed.

Lemma is_prefix_drop (m s : text) :
  is_prefix m s = true → s = m ++ drop (length m) s.
Proof.
  intros [k ->]%is_prefix_spec. by rewrite drop_app_length.
Qed.

Lemma is_suffix_spec (x m : text) : is_suffix x m = true ↔ x `suffix_of` m.
Proof. unfold is_suffix. by rewrite is_prefix_spec, <- suffix_prefix_reverse. Qed.

(** *** [contains] and occurrences *)

Lemma contains_spec (m s : text) :
  contains m s = true ↔ ∃ l1 l2, s = l1 ++ m ++ l2.
Proof.
  induction s as [|c s IH]; simpl.
  - rewrite orb_false_r, is_prefix_spec. split.
    + intros [k Hk]. by exists [], k.
    + intros (l1 & l2 & H). symmetry in H.
      apply app_eq_nil in H as [-> [-> ->]%app_eq_nil]. done.
  - rewrite orb_true_iff, IH, is_prefix_spec. split.
    + intros [[k Hk] | (l1 & l2 & ->)].
      * by exists [], k.
      * by exists (c :: l1), l2.
    + intros (l1 & l2 & H). destruct l1 as [|c' l1]; simpl in H.
      * left. by exists l2.
      * right. exists l1, l2. by injection H.
Qed.

Lemma occs_nil (q : text) : q ≠ [] → occs q [] = 0.
Proof. by destruct q. Qed.

Lemma occs_zero (q s : text) : q ≠ [] → occs q s = 0 ↔ contains q s = false.
Proof.
  intros Hq. induction s as [|c s IH]; simpl.
  - destruct q; [done | by simpl].
  - destruct (is_prefix q (c :: s)); simpl; [split; intros; [lia | done] | done].
Qed.

Lemma occs_pos (q s : text) : q ≠ [] → 0 < occs q s ↔ contains q s = true.
Proof.
  intros Hq. pose proof (occs_zero q s Hq).
  destruct (contains q s), (occs q s); split; intros; try done; try lia;
    naive_solver.
Qed.

Lemma occs_short (q s : text) : length s < length q → occs q s = 0.
Proof.
  intros Hlen. induction s as [|c s IH].
  - destruct q; [simpl in Hlen; lia | done].
  - simpl in *. rewrite IH by lia.
    destruct (is_prefix q (c :: s)) eqn:Hp; [|done].
    apply is_prefix_spec, prefix_length in Hp. simpl in Hp. lia.
Qed.

(** If [q] starts [u ++ v], it starts [u] or runs over the end of [u]. *)
Lemma is_prefix_app_inv (q u v : text) :
  is_prefix q (u ++ v) = true →
  is_prefix q u = true ∨ ∃ y, y ≠ [] ∧ q = u ++ y ∧ y `prefix_of` v.
Proof.
  rewrite !is_prefix_spec. intros [k Hk].
  apply app_eq_inv in Hk as [(k' & -> & ->) | (k' & -> & ->)].
  - left. by exists k'.
  - destruct k' as [|c k'].
    + left. rewrite app_nil_r. done.
    + right. exists (c :: k'). split_and!; [done | done | by exists k].
Qed.

(** Occurrences add up over a concatenation no occurrence lies across. *)
Lemma occs_app (q u v : text) :
  q ≠ [] →
  (∀ x y, x ≠ [] → y ≠ [] → q = x ++ y →
     ¬ (x `suffix_of` u ∧ y `prefix_of` v)) →
  occs q (u ++ v) = occs q u + occs q v.
Proof.
  intros Hq. induction u as [|c u IH]; intros Hno.
  - by rewrite (occs_nil q Hq).
  - simpl. rewrite IH.
    2:{ intros x y Hx Hy Hxy [Hs Hp]. apply (Hno x y Hx Hy Hxy).
        split; [by apply suffix_cons_r | done]. }
    assert (is_prefix q (c :: u ++ v) = is_prefix q (c :: u)) as ->; [|lia].
    destruct (is_prefix q (c :: u)) eqn:Hu.
    + apply is_prefix_spec in Hu. apply is_prefix_spec.
      by apply prefix_app_r with (l3 := v) in Hu.
    + destruct (is_prefix q (c :: u ++ v)) eqn:Huv; [|done].
      apply (is_prefix_app_inv q (c :: u) v) in Huv
        as [Hu' | (y & Hy & Hqy & Hp)]; [congruence|].
      exfalso. apply (Hno (c :: u) y); [done | done | done |].
      split; [done | done].
Qed.

(** *** The scan of [replace] *)

Lemma replace_from_skip (old new : text) (k : nat) (s : text) :
  replace_from old new k s = replace_from old new 0 (drop k s).
Proof.
  revert k. induction s as [|c s IH]; intros [|k]; try done.
  simpl. by rewrite IH.
Qed.

Lemma replace_nil (old new : text) : old ≠ [] → replace old new [] = [].
Proof. by destruct old. Qed.

Lemma replace_hit (old new s : text) :
  old ≠ [] → replace old new (old ++ s) = new ++ replace old new s.
Proof.
  intros Hold. destruct old as [|a old]; [done|]. unfold replace.
  change ((a :: old) ++ s) with (a :: (old ++ s)).
  pose proof (is_prefix_app (a :: old) s) as Hp.
  change ((a :: old) ++ s) with (a :: (old ++ s)) in Hp.
  cbn [replace_from]. rewrite Hp. f_equal.
  rewrite replace_from_skip. simpl. by rewrite Nat.sub_0_r, drop_app_length.
Qed.

Lemma replace_miss (old new : text) (c : ascii) (s : text) :
  is_prefix old (c :: s) = false →
  replace old new (c :: s) = c :: replace old new s.
Proof.
  intros Hp. destruct old as [|a old]; [done|]. unfold replace.
  cbn [replace_from]. by rewrite Hp.
Qed.

Lemma replace_absent (old new s : text) :
  contains old s = false → replace old new s = s.
Proof.
  intros Hc. assert (old ≠ []) as Hold.
  { intros ->. by destruct s. }
  induction s as [|c s IH]; [by apply replace_nil|].
  simpl in Hc. apply orb_false_iff in Hc as [Hp Hc].
  rewrite replace_miss by done. by rewrite IH.
Qed.

(** *** [join] *)

Lemma join_cons (sep p : text) (ps : list text) :
  ps ≠ [] → join sep (p :: ps) = p ++ sep ++ join sep ps.
Proof. by destruct ps. Qed.

Lemma join_cons_head (sep : text) (c : ascii) (p : text) (ps : list text) :
  join sep ((c :: p) :: ps) = c :: join sep (p :: ps).
Proof. by destruct ps. Qed.

(** The beginnings and ends of an inserted [m] at which [q] could lie
    across are excluded by [apart q m]. *)
Lemma occs_around (q m u v : text) :
  q ≠ [] → apart q m →
  occs q (u ++ m ++ v) = occs q u + occs q m + occs q v.
Proof.
  intros Hq Hap. rewrite (occs_app q u (m ++ v) Hq).
  - rewrite (occs_app q m v Hq); [lia|].
    intros x y Hx Hy Hxy [Hs _]. by destruct (Hap x y Hx Hy Hxy) as (? & _).
  - intros x y Hx Hy Hxy [_ [k Hk]].
    destruct (Hap x y Hx Hy Hxy) as (_ & Hn1 & Hn2).
    apply app_eq_inv in Hk as [(k' & -> & _) | (k' & -> & _)].
    + apply Hn1. by exists k'.
    + apply Hn2. by exists k'.
Qed.

Lemma occs_self (q : text) : q ≠ [] → occs q q = 1.
Proof.
  intros Hq. destruct q as [|a q]; [done|].
  change (occs (a :: q) (a :: q))
    with ((if is_prefix (a :: q) (a :: q) then 1 else 0) + occs (a :: q) q).
  rewrite (proj2 (is_prefix_spec _ _)) by done.
  rewrite occs_short; [done | simpl; lia].
Qed.

Lemma occs_join (q m : text) (ps : list text) :
  q ≠ [] → apart q m → ps ≠ [] →
  occs q (join m ps) = sum_list (occs q <$> ps) + (length ps - 1) * occs q m.
Proof.
  intros Hq Hap. induction ps as [|p ps IH]; [done|]. intros _.
  destruct ps as [|p' ps]; [simpl; lia|].
  rewrite join_cons by done. rewrite occs_around by done.
  rewrite IH by done. simpl. lia.
Qed.

(** The scan cuts [s] at every occurrence of a pattern that cannot overlap
    itself, and [replace] puts the new text at every cut. *)
Lemma replace_join (m s : text) :
  m ≠ [] → apart m m →
  ∃ ps, length ps = S (occs m s) ∧ s = join m ps
        ∧ ∀ r, replace m r s = join r ps.
Proof.
  intros Hm Hap. remember (length s) as n eqn:Hn. revert s Hn.
  induction n as [n IH] using lt_wf_ind. intros s ->.
  destruct (is_prefix m s) eqn:Hp.
  - apply is_prefix_drop in Hp. set (s' := drop (length m) s) in *.
    destruct (IH (length s')) with (s := s') as (ps & Hlen & Hs & Hr);
      [|done|].
    { rewrite Hp, length_app. destruct m; [done | simpl; lia]. }
    assert (ps ≠ []) by (by destruct ps).
    exists ([] :: ps). split_and!.
    + rewrite Hp. change (m ++ s') with ([] ++ m ++ s').
      rewrite occs_around, occs_self, (occs_nil m) by done. simpl. lia.
    + rewrite join_cons by done. simpl. by rewrite <- Hs.
    + intros r. rewrite Hp, replace_hit by done.
      rewrite join_cons by done. simpl. by rewrite Hr.
  - destruct s as [|c s].
    + exists [[]]. split_and!; [by rewrite occs_nil | done |].
      intros r. by apply replace_nil.
    + destruct (IH (length s)) with (s := s) as (ps & Hlen & Hs & Hr);
        [simpl; lia | done |].
      destruct ps as [|p ps]; [done|].
      exists ((c :: p) :: ps). split_and!.
      * simpl. rewrite Hp. simpl in Hlen. lia.
      * rewrite join_cons_head. by rewrite <- Hs.
      * intros r. rewrite replace_miss by done.
        rewrite join_cons_head. by rewrite Hr.
Qed.

(** Counting [q] after replacing every [m] by [r]. *)
Lemma occs_replace (q m r s : text) :
  q ≠ [] → m ≠ [] → apart m m → apart q m → apart q r →
  occs q (replace m r s) + occs m s * occs q m
  = occs q s + occs m s * occs q r.
Proof.
  intros Hq Hm Hmm Hqm Hqr.
  destruct (replace_join m s Hm Hmm) as (ps & Hlen & Hs & Hr).
  assert (ps ≠ []) by (by destruct ps).
  rewrite Hr. assert (occs q s = occs q (join m ps)) as -> by (by rewrite <- Hs).
  rewrite !occs_join by done. rewrite Hlen. simpl. rewrite Nat.sub_0_r. lia.
Qed.

(** *** Deciding [apart] *)

Lemma apartb_sound (q m : text) : apartb q m = true → apart q m.
Proof.
  unfold apartb. rewrite forallb_forall. intros H x y Hx Hy ->.
  specialize (H (length x)).
  rewrite take_app_length, drop_app_length in H.
  assert (In (length x) (seq 1 (length (x ++ y) - 1))) as Hin.
  { apply in_seq. rewrite length_app. destruct x, y; simpl in *; try done; lia. }
  apply H in Hin. rewrite !andb_true_iff, !negb_true_iff in Hin.
  destruct Hin as [[H1 H2] H3].
  rewrite <- is_suffix_spec, <- !is_prefix_spec. by rewrite H1, H2, H3.
Qed.

End TextFacts.

(** * Facts about the matcher *)

Module RegexFacts.
Import Text TextFacts Regex.

(** A pattern of literal characters matches where its text starts. *)
Lemma match_here_lits (m s : text) :
  match_here (Lit <$> m) s = if is_prefix m s then Some (length m) else None.
Proof.
  revert s. induction m as [|a m IH]; intros s; [done|].
  destruct s as [|b s]; [done|]. simpl.
  destruct (Ascii.eqb a b); [|done]. rewrite IH.
  by destruct (is_prefix m s).
Qed.

Lemma sub_from_lits (m repl : text) (k : nat) (s : text) :
  m ≠ [] → sub_from (Lit <$> m) repl k s = replace_from m repl k s.
Proof.
  intros Hm. revert k. induction s as [|c s IH]; intros k.
  - simpl. rewrite match_here_lits. destruct m; [done|]. by destruct k.
  - destruct k as [|k]; [|apply IH].
    cbn [sub_from replace_from]. rewrite match_here_lits.
    destruct (is_prefix m (c :: s)); [|by rewrite IH].
    destruct m as [|a m]; [done|]. simpl. by rewrite IH, Nat.sub_0_r.
Qed.

(** [re.sub] with a pattern of literal characters is [str.replace]. *)
Lemma sub_lits (m repl s : text) :
  m ≠ [] → sub (Lit <$> m) repl s = replace m repl s.
Proof.
  intros Hm. unfold sub. rewrite sub_from_lits by done. by destruct m.
Qed.

Lemma search_None_cons (r : regex) (c : ascii) (s : text) :
  search r (c :: s) = None → match_here r (c :: s) = None ∧ search r s = None.
Proof.
  cbn [search]. destruct (match_here r (c :: s)); [done|].
  destruct (search r s); [done | done].
Qed.

(** Without a match anywhere, [re.sub] returns its input. *)
Lemma sub_no_match (r : regex) (repl s : text) :
  search r s = None → sub r repl s = s.
Proof.
  unfold sub. induction s as [|c s IH]; intros Hs.
  - simpl in *. by destruct (match_here r []).
  - apply search_None_cons in Hs as [Hm Hs]. cbn [sub_from].
    rewrite Hm. by rewrite IH.
Qed.

Lemma search_lits (m s : text) :
  m ≠ [] → search (Lit <$> m) s = None ↔ contains m s = false.
Proof.
  intros Hm. induction s as [|c s IH]; cbn [search contains].
  - rewrite match_here_lits. destruct m; [done|]. done.
  - rewrite match_here_lits. destruct (is_prefix m (c :: s)); [done|].
    simpl. rewrite <- IH. by destruct (search (Lit <$> m) s).
Qed.

End RegexFacts.

(** * Facts about refactor_movie_pages.py *)

Module RefactorFacts.
Import Text TextFacts Regex RegexFacts Py Refactor.

Lemma found_false (r : regex) (s : text) : found r s = false ↔ search r s = None.
Proof. unfold found. by destruct (search r s). Qed.

Lemma lits_of_Some (r : regex) (m : text) : lits_of r = Some m → r = Lit <$> m.
Proof.
  revert m. induction r as [|a r IH]; intros m.
  - by intros [= <-].
  - destruct a as [c|]; [|done]. simpl.
    destruct (lits_of r) as [m'|] eqn:Hr; [|done]. simpl.
    intros [= <-]. simpl. f_equal. by apply IH.
Qed.

(** The rule of a key is one of the four entries of [EFFECTS]. *)
Lemma dict_get_Some {V : Type} (d : list (text * V)) (k : text) (v : V) :
  dict_get d k = Some v → (k, v) ∈ d.
Proof.
  induction d as [|[k' v'] d IH]; [done|]. simpl.
  case_decide as Hk.
  - intros [= <-]. rewrite Hk. apply list_elem_of_here.
  - intros H. apply list_elem_of_further. by apply IH.
Qed.

(** Every pattern of the script is in the fragment [parse] reads: the
    block patterns compile to non-empty expressions, and the patterns of
    step 3 to these literal texts. *)
Lemma block_patterns_compile : Forall (fun r => r ≠ []) block_patterns.
Proof.
  unfold block_patterns. rewrite !Forall_cons.
  repeat split; try (by vm_compute).
Qed.

Lemma replacement_patterns (config : Config) :
  (fun pr => lits_of (compile false pr.1)) <$> replacements config
  = Some <$> [
      T "activeEffectInstance.play()";
      T "activeEffectInstance.pause()";
      T "activeEffectInstance.stop()";
      T "activeEffectInstance.dispose()";
      T "activeEffectInstance.getConfig()";
      T "activeEffectInstance.setRecording(";
      T "activeEffectInstance.setConfig(";
      T "if (activeEffectInstance)";
      T "if (!activeEffectInstance)";
      T "activeEffectInstance && (";
      T "{activeEffectInstance &&";
      legacy_access ].
Proof. vm_compute. reflexivity. Qed.

Lemma step3_from_absent (rs : list (text * text)) (content : text) :
  Forall (fun pr => found (compile false pr.1) content = false) rs →
  step3_from rs content = content.
Proof.
  unfold step3_from. induction 1 as [|pr rs Hpr _ IH]; [done|].
  simpl. rewrite sub_no_match by (by apply found_false). done.
Qed.

Lemma step4_absent (content : text) :
  Forall (fun r => found r content = false) block_patterns →
  step4 content = content.
Proof.
  unfold block_patterns. rewrite !Forall_cons, !found_false.
  intros (H1 & H2 & H3 & H4 & _). unfold step4. cbn zeta.
  by rewrite (sub_no_match _ _ _ H1), (sub_no_match _ _ _ H2),
    (sub_no_match _ _ _ H3), (sub_no_match _ _ _ H4).
Qed.

Lemma step5_absent (config : Config) (effect_key content : text) :
  contains insert_marker content = false →
  step5 config effect_key content = content.
Proof. unfold step5. by intros ->. Qed.

Lemma step6_absent (config : Config) (effect_key content : text) :
  contains canvas_marker content = false →
  step6 config effect_key content = content.
Proof. unfold step6. by intros ->. Qed.

Lemma refactor_content_absent (config : Config) (effect_key content : text) :
  anchors_absent config content = true →
  refactor_content config effect_key content = content.
Proof.
  unfold anchors_absent. rewrite !andb_true_iff, !negb_true_iff.
  rewrite !forallb_forall.
  intros (((((H1 & H2) & H3) & H4) & H5) & H6). unfold refactor_content.
  cbn zeta. unfold step1, step2, step3.
  rewrite (replace_absent _ _ _ H1), (replace_absent _ _ _ H2).
  rewrite step3_from_absent.
  2:{ apply Forall_forall. intros pr Hpr%list_elem_of_In.
      by apply negb_true_iff, H3. }
  rewrite step4_absent.
  2:{ apply Forall_forall. intros r Hr%list_elem_of_In.
      by apply negb_true_iff, H4. }
  by rewrite step5_absent, step6_absent.
Qed.

(** *** [refactor_file] on a file that exists and on one that does not *)

Lemma refactor_file_missing (fs : files) (filepath : Path) (effect_key : text) :
  fs !! filepath = None →
  refactor_file fs filepath effect_key = Returned (fs, false).
Proof. unfold refactor_file. by intros ->. Qed.

Lemma refactor_file_present (fs : files) (filepath : Path)
    (effect_key : text) (config : Config) (original_content : text) :
  fs !! filepath = Some original_content →
  dict_get EFFECTS effect_key = Some config →
  refactor_file fs filepath effect_key =
    let content := refactor_content config effect_key original_content in
    if decide (content = original_content)
    then Returned (fs, false)
    else Returned (<[filepath := content]> fs, true).
Proof. unfold refactor_file. by intros -> ->. Qed.

(** A call that returns leaves the set of existing files as it was. *)
Lemma refactor_file_dom (fs fs' : files) (filepath : Path)
    (effect_key : text) (success : bool) :
  refactor_file fs filepath effect_key = Returned (fs', success) →
  ∀ p, fs' !! p = None ↔ fs !! p = None.
Proof.
  unfold refactor_file. destruct (fs !! filepath) as [d|] eqn:Hd.
  - destruct (dict_get EFFECTS effect_key) as [config|]; [|done].
    cbn zeta. case_decide; intros [= <- <-]; [done|].
    intros p. destruct (decide (filepath = p)) as [<-|Hne].
    + rewrite lookup_insert_eq, Hd. done.
    + by rewrite lookup_insert_ne.
  - by intros [= <- <-].
Qed.

(** The loop returns for any files when every key is in [EFFECTS]; it
    records every file in order, and a file that does not exist is recorded
    as failed. *)
Lemma refactor_all_returns (todo : list (Path * text)) :
  Forall (fun pk => is_Some (dict_get EFFECTS pk.2)) todo →
  ∀ (fs : files) (acc : list (text * bool)),
  ∃ fs' rs,
    refactor_all fs todo acc = Returned (fs', acc ++ rs)
    ∧ rs.*1 = name <$> todo.*1
    ∧ (∀ p, fs' !! p = None ↔ fs !! p = None)
    ∧ Forall2 (fun pk r => fs !! pk.1 = None → r.2 = false) todo rs.
Proof.
  induction 1 as [|[filepath effect_key] todo [config Hkey] _ IH];
    intros fs acc.
  - exists fs, []. by rewrite app_nil_r.
  - cbn [refactor_all].
    assert (∃ fs1 success,
      refactor_file fs filepath effect_key = Returned (fs1, success)
      ∧ (fs !! filepath = None → success = false)) as (fs1 & b & Hrun & Hb).
    { destruct (fs !! filepath) as [d|] eqn:Hd.
      - rewrite (refactor_file_present fs filepath effect_key config d)
          by done.
        cbn zeta. case_decide; eexists _, _; by split.
      - rewrite refactor_file_missing by done. by eexists _, _. }
    rewrite Hrun. cbn.
    destruct (IH fs1 (acc ++ [(name filepath, b)]))
      as (fs' & rs & Hall & Hnames & Hdom & Hrs).
    exists fs', ((name filepath, b) :: rs). split_and!.
    + rewrite Hall. by rewrite <- app_assoc.
    + rewrite !fmap_cons. f_equal. exact Hnames.
    + intros p. rewrite Hdom.
      by apply (refactor_file_dom fs fs1 filepath effect_key b).
    + constructor; [done|].
      eapply Forall2_impl; [exact Hrs|]. intros pk r Hr Hnone. apply Hr.
      by apply (refactor_file_dom fs fs1 filepath effect_key b Hrun).
Qed.

(** *** Claims about the steps and the file *)



(** C4: for every file that exists and every rule: the file is overwritten
    with the final content exactly when that content differs from the
    content read, the value returned is [False] exactly when it does not
    differ, and in that case the files are left as they were.  No other
    file is touched in either case. *)
Theorem write_iff_changed (fs : files) (filepath : Path) (effect_key : text)
    (config : Config) (original_content : text) :
  fs !! filepath = Some original_content →
  dict_get EFFECTS effect_key = Some config →
  let content := refactor_content config effect_key original_content in
  ∃ fs' success,
    refactor_file fs filepath effect_key = Returned (fs', success)
    ∧ (success = true ↔ content ≠ original_content)
    ∧ (success = false ↔ content = original_content)
    ∧ (content ≠ original_content → fs' = <[filepath := content]> fs)
    ∧ (content = original_content → fs' = fs)
    ∧ (∀ p, p ≠ filepath → fs' !! p = fs !! p).
Proof.
  intros Hfile Hkey content.
  rewrite (refactor_file_present fs filepath effect_key config
             original_content Hfile Hkey).
  cbn zeta. fold content. case_decide as Hc.
  - exists fs, false. split_and!; try done.
  - exists (<[filepath := content]> fs), true. split_and!; try done.
    intros p Hp. by rewrite lookup_insert_ne.
Qed.

Lemma write_iff_changed_witness :
  let page : Path := [T "src"; T "pages"; T "movies"; T "OrbitMoviePage.tsx"] in
  let fs : files := {[ page := T "if (activeEffectInstance) {}" ]} in
  ∃ fs' success,
    refactor_file fs page (T "orbit") = Returned (fs', success)
    ∧ success = true
    ∧ fs' = <[page := T "if (orbitPlayerRef.current) {}"]> fs.
Proof.
  intros page fs.
  destruct (write_iff_changed fs page (T "orbit") orbit_rule
              (T "if (activeEffectInstance) {}"))
    as (fs' & success & Hrun & Htrue & _ & Hnew & _).
  - apply lookup_singleton_eq.
  - reflexivity.
  - exists fs', success. split_and!; [done | by apply Htrue; vm_compute |].
    rewrite Hnew; [f_equal; by vm_compute | by vm_compute].
Defined.

(** C1 (as amended): a second run with the same rule is a no-op whenever
    the migrated document holds none of the anchors, patterns and markers of
    the steps: the call returns [False] and leaves the files as the first
    run left them. *)
Theorem second_run_noop (fs fs1 : files) (filepath : Path) (effect_key : text)
    (config : Config) (document : text) (success : bool) :
  fs !! filepath = Some document →
  dict_get EFFECTS effect_key = Some config →
  refactor_file fs filepath effect_key = Returned (fs1, success) →
  anchors_absent config (refactor_content config effect_key document) = true →
  fs1 !! filepath = Some (refactor_content config effect_key document)
  ∧ refactor_file fs1 filepath effect_key = Returned (fs1, false).
Proof.
  intros Hfile Hkey Hrun Habs.
  rewrite (refactor_file_present fs filepath effect_key config document
             Hfile Hkey) in Hrun.
  cbn zeta in Hrun.
  assert (fs1 !! filepath = Some (refactor_content config effect_key document))
    as Hmigrated.
  { case_decide as Hc; injection Hrun as <- <-.
    - by rewrite Hc.
    - apply lookup_insert_eq. }
  split; [done|].
  rewrite (refactor_file_present fs1 filepath effect_key config _
             Hmigrated Hkey).
  cbn zeta. rewrite (refactor_content_absent _ _ _ Habs).
  by rewrite decide_True.
Qed.

Lemma second_run_noop_witness :
  let page : Path := [T "TurntableMoviePage.tsx"] in
  let fs : files := {[ page := old_state ]} in
  let fs1 : files := <[page := new_state turntable_rule]> fs in
  refactor_file fs1 page (T "turntable") = Returned (fs1, false).
Proof.
  intros page fs fs1.
  apply (second_run_noop fs fs1 page (T "turntable") turntable_rule
           old_state true).
  - apply lookup_singleton_eq.
  - reflexivity.
  - rewrite (refactor_file_present fs page (T "turntable") turntable_rule
               old_state); [| apply lookup_singleton_eq | reflexivity].
    cbn zeta. rewrite decide_False by (by vm_compute).
    unfold fs1. do 3 f_equal; try (by vm_compute).
  - by vm_compute.
Defined.

(** C1 (as stated) fails: a page made of the insertion marker alone is
    changed by the first run and changed again by the second, which inserts
    the generated fragment once more. *)
Lemma second_run_inserts_again :
  let page : Path := [T "TurntableMoviePage.tsx"] in
  let fs : files := {[ page := insert_marker ]} in
  let once := refactor_content turntable_rule (T "turntable") insert_marker in
  let twice := refactor_content turntable_rule (T "turntable") once in
  refactor_file fs page (T "turntable") = Returned (<[page := once]> fs, true)
  ∧ refactor_file (<[page := once]> fs) page (T "turntable")
    = Returned (<[page := twice]> (<[page := once]> fs), true)
  ∧ twice ≠ once
  ∧ length twice = length once + length (initial_config turntable_rule (T "turntable")).
Proof.
  intros page fs once twice. split_and!.
  - rewrite (refactor_file_present fs page (T "turntable") turntable_rule
               insert_marker); [| apply lookup_singleton_eq | reflexivity].
    cbn zeta. by rewrite decide_False by (by vm_compute).
  - rewrite (refactor_file_present _ page (T "turntable") turntable_rule
               once); [| apply lookup_insert_eq | reflexivity].
    cbn zeta. by rewrite decide_False by (by vm_compute).
  - by vm_compute.
  - by vm_compute.
Qed.

Lemma names_Forall2 (todo : list (Path * text)) (rs : list (text * bool)) :
  rs.*1 = name <$> todo.*1 →
  Forall2 (fun pk r => r.1 = name pk.1) todo rs.
Proof.
  revert todo. induction rs as [|r rs IH]; intros [|pk todo]; try done.
  rewrite !fmap_cons. intros [= H1 H2]. constructor; [done | by apply IH].
Qed.

Lemma failed_lines (fs : files) (todo : list (Path * text))
    (rs : list (text * bool)) (sm : list text) :
  Forall2 (fun pk r => fs !! pk.1 = None → r.2 = false) todo rs →
  Forall2 (fun pk r => r.1 = name pk.1) todo rs →
  (∀ r, r ∈ rs → r.2 = false → T "❌ FAILED: " ++ r.1 ∈ sm) →
  Forall2 (fun pk r => fs !! pk.1 = None →
             r = (name pk.1, false) ∧ T "❌ FAILED: " ++ name pk.1 ∈ sm)
    todo rs.
Proof.
  induction 1 as [|pk r l rs' Hr Hrs IH]; intros Hn Hsum; [constructor|].
  inversion Hn as [|? ? ? ? Hnm Hn']; subst. constructor.
  - intros Hnone. specialize (Hr Hnone). split.
    + destruct r as [n b]. simpl in *. by subst.
    + rewrite <- Hnm. apply Hsum; [apply list_elem_of_here | done].
  - apply IH; [done|]. intros r' Hin. apply Hsum.
    by apply list_elem_of_further.
Qed.

(** *** Rewriting every occurrence *)

Lemma EFFECTS_cases (effect_key : text) (config : Config) :
  dict_get EFFECTS effect_key = Some config →
  (effect_key, config) = (T "turntable", turntable_rule)
  ∨ (effect_key, config) = (T "reveal", reveal_rule)
  ∨ (effect_key, config) = (T "orbit", orbit_rule)
  ∨ (effect_key, config) = (T "explosion", explosion_rule).
Proof.
  intros H%dict_get_Some. unfold EFFECTS in H.
  rewrite !elem_of_cons in H.
  destruct H as [H | [H | [H | [H | H]]]]; eauto. by apply elem_of_nil in H.
Qed.

(** Where [m] occurs, the result of [replace] holds [r]. *)
Lemma replace_contains (m r s : text) :
  m ≠ [] → apart m m → contains m s = true →
  contains r (replace m r s) = true.
Proof.
  intros Hm Hap Hc. apply occs_pos in Hc; [|done].
  destruct (replace_join m s Hm Hap) as (ps & Hlen & _ & Hr).
  rewrite Hr. destruct ps as [|p [|p' ps]]; simpl in Hlen; try lia.
  rewrite join_cons by done. apply contains_spec. by eexists _, _.
Qed.

(** All that [occs_replace] asks of a pattern and its replacement, decided
    by computation. *)
Lemma occs_replace_b (q m r s : text) :
  separable q m r = true →
  occs q (replace m r s) + occs m s * occs q m
  = occs q s + occs m s * occs q r.
Proof.
  unfold separable.
  rewrite !andb_true_iff, !negb_true_iff, !bool_decide_eq_false.
  intros ((((Hq & Hm) & Hmm) & Hqm) & Hqr).
  by apply occs_replace; try apply apartb_sound.
Qed.

(** The import step on a content that holds the legacy import line: the
    new-import block is there afterwards, and the legacy line is counted
    once per replaced occurrence for every occurrence of it inside the block
    itself. *)
Lemma step1_counts (effect_key : text) (config : Config) (content : text) :
  dict_get EFFECTS effect_key = Some config →
  contains (old_import_line config) content = true →
  contains (new_import config) (step1 config content) = true
  ∧ occs (old_import_line config) (step1 config content)
    = occs (old_import_line config) content
      * occs (old_import_line config) (new_import config)
  ∧ occs (old_import_line config) (new_import config)
    = (if decide (effect_key = T "turntable") then 0 else 1)
  ∧ (effect_key = T "turntable" →
       contains (old_import_line config) (step1 config content) = false)
  ∧ (effect_key ≠ T "turntable" →
       contains (old_import_line config) (step1 config content) = true).
Proof.
  intros Hkey Hc.
  assert (old_import_line config ≠ []
          ∧ apartb (old_import_line config) (old_import_line config) = true
          ∧ apartb (old_import_line config) (new_import config) = true
          ∧ occs (old_import_line config) (new_import config)
            = (if decide (effect_key = T "turntable") then 0 else 1))
    as (Hne & Hmm & Hmr & Hin).
  { destruct (EFFECTS_cases _ _ Hkey) as [H | [H | [H | H]]];
      injection H as -> ->; by vm_compute. }
  pose proof (occs_replace (old_import_line config) (old_import_line config)
                (new_import config) content Hne Hne (apartb_sound _ _ Hmm)
                (apartb_sound _ _ Hmm) (apartb_sound _ _ Hmr)) as Hocc.
  rewrite occs_self in Hocc by done. fold (step1 config content) in Hocc.
  assert (occs (old_import_line config) (step1 config content)
          = occs (old_import_line config) content
            * occs (old_import_line config) (new_import config)) as Hcount
    by lia.
  apply occs_pos in Hc as Hpos; [|done].
  split_and!; try done.
  - apply replace_contains; [done | by apply apartb_sound | done].
  - intros Hk. apply occs_zero; [done|]. rewrite Hcount, Hin.
    rewrite decide_True by done. lia.
  - intros Hk. apply occs_pos; [done|]. rewrite Hcount, Hin.
    rewrite decide_False by done. lia.
Qed.

Lemma separable_nonempty (q m r : text) : separable q m r = true → m ≠ [].
Proof.
  unfold separable.
  rewrite !andb_true_iff, !negb_true_iff, !bool_decide_eq_false. tauto.
Qed.

Lemma sub_leaves_alone (q : text) (pr : text * text) (content : text) :
  leaves_alone q pr = true →
  occs q (sub (compile false pr.1) pr.2 content) = occs q content.
Proof.
  unfold leaves_alone.
  destruct (lits_of (compile false pr.1)) as [m|] eqn:Hm; [|done].
  rewrite !andb_true_iff, !Nat.eqb_eq. intros [[Hsep Hqm] Hqr].
  apply lits_of_Some in Hm as ->.
  rewrite sub_lits by (by eapply separable_nonempty).
  pose proof (occs_replace_b q m pr.2 content Hsep) as H.
  rewrite Hqm, Hqr in H. lia.
Qed.

Lemma step3_from_leaves_alone (q : text) (rs : list (text * text))
    (content : text) :
  forallb (leaves_alone q) rs = true →
  occs q (step3_from rs content) = occs q content.
Proof.
  unfold step3_from. revert content.
  induction rs as [|pr rs IH]; intros content; [done|].
  simpl. rewrite andb_true_iff. intros [Hpr Hrs].
  rewrite IH by done. by apply sub_leaves_alone.
Qed.

(** Step 3 ends with the optional-chaining rewrite applied to what the
    eleven earlier rewrites produced; those leave every occurrence of
    [activeEffectInstance?.] in place. *)
Lemma step3_last_rewrite (effect_key : text) (config : Config)
    (content : text) :
  dict_get EFFECTS effect_key = Some config →
  let before := step3_from (earlier_replacements config) content in
  step3 config content
    = replace legacy_access (rewritten_access config) before
  ∧ occs legacy_access before = occs legacy_access content
  ∧ occs legacy_access (step3 config content) = 0
  ∧ occs (rewritten_access config) (step3 config content)
    = occs legacy_access content + occs (rewritten_access config) before.
Proof.
  intros Hkey before.
  assert (forallb (leaves_alone legacy_access) (earlier_replacements config)
          = true
          ∧ separable legacy_access legacy_access (rewritten_access config)
            = true
          ∧ separable (rewritten_access config) legacy_access
              (rewritten_access config) = true
          ∧ occs legacy_access (rewritten_access config) = 0
          ∧ occs (rewritten_access config) legacy_access = 0)
    as (Hearlier & Hsep1 & Hsep2 & Hlr & Hrl).
  { destruct (EFFECTS_cases _ _ Hkey) as [H | [H | [H | H]]];
      injection H as -> ->; by vm_compute. }
  assert (step3 config content
          = replace legacy_access (rewritten_access config) before) as Hstep.
  { unfold step3, before, earlier_replacements.
    assert (replacements config
            = take 11 (replacements config)
              ++ [(optional_chaining, rewritten_access config)]) as Hsplit
      by reflexivity.
    rewrite Hsplit at 1. unfold step3_from. rewrite foldl_app. simpl.
    assert (compile false optional_chaining = Lit <$> legacy_access) as ->
      by (by vm_compute).
    by rewrite sub_lits. }
  assert (occs legacy_access before = occs legacy_access content) as Hbefore
    by (by apply step3_from_leaves_alone).
  pose proof (occs_replace_b _ _ _ before Hsep1) as H1.
  pose proof (occs_replace_b _ _ _ before Hsep2) as H2.
  rewrite <- Hstep in H1, H2.
  assert (legacy_access ≠ []) as Hl by done.
  assert (rewritten_access config ≠ []) as Hr.
  { unfold rewritten_access. intros [_ H]%app_eq_nil. done. }
  rewrite (occs_self legacy_access Hl), Hlr in H1.
  rewrite (occs_self _ Hr), Hrl in H2.
  split_and!; [done | done | lia | lia].
Qed.

Lemma step5_replace (config : Config) (effect_key content : text) :
  step5 config effect_key content
  = replace insert_marker (insert_marker ++ initial_config config effect_key)
      content.
Proof.
  unfold step5. destruct (contains insert_marker content) eqn:Hc; [done|].
  by rewrite replace_absent.
Qed.

Lemma step6_replace (config : Config) (effect_key content : text) :
  step6 config effect_key content
  = replace canvas_marker (controller_jsx config effect_key) content.
Proof.
  unfold step6. destruct (contains canvas_marker content) eqn:Hc; [done|].
  by rewrite replace_absent.
Qed.

(** Steps 5 and 6 on a content with n occurrences of their marker: the
    content is n + 1 pieces joined by the marker, and the step returns the
    same pieces joined by the marker with the generated text. *)
Lemma markers_rejoined (effect_key : text) (config : Config)
    (content : text) :
  dict_get EFFECTS effect_key = Some config →
  (∃ pieces,
      length pieces = S (occs insert_marker content)
      ∧ content = join insert_marker pieces
      ∧ step5 config effect_key content
        = join (insert_marker ++ initial_config config effect_key) pieces)
  ∧ occs insert_marker (step5 config effect_key content)
    = occs insert_marker content
  ∧ (∃ before pieces,
      controller_jsx config effect_key = before ++ canvas_marker
      ∧ length pieces = S (occs canvas_marker content)
      ∧ content = join canvas_marker pieces
      ∧ step6 config effect_key content
        = join (before ++ canvas_marker) pieces)
  ∧ occs canvas_marker (step6 config effect_key content)
    = occs canvas_marker content.
Proof.
  intros Hkey.
  assert (separable insert_marker insert_marker
            (insert_marker ++ initial_config config effect_key) = true
          ∧ occs insert_marker
              (insert_marker ++ initial_config config effect_key) = 1
          ∧ separable canvas_marker canvas_marker
              (controller_jsx config effect_key) = true
          ∧ occs canvas_marker (controller_jsx config effect_key) = 1
          ∧ controller_jsx config effect_key
            = take (length (controller_jsx config effect_key)
                    - length canvas_marker)
                (controller_jsx config effect_key) ++ canvas_marker)
    as (Hs5 & Hin5 & Hs6 & Hin6 & Hend).
  { destruct (EFFECTS_cases _ _ Hkey) as [H | [H | [H | H]]];
      injection H as -> ->; by vm_compute. }
  assert (insert_marker ≠ []) as Hne5 by done.
  assert (canvas_marker ≠ []) as Hne6 by done.
  assert (apart insert_marker insert_marker) as Hap5
    by (by apply apartb_sound; vm_compute).
  assert (apart canvas_marker canvas_marker) as Hap6
    by (by apply apartb_sound; vm_compute).
  rewrite step5_replace, step6_replace. split_and!.
  - destruct (replace_join insert_marker content Hne5 Hap5)
      as (ps & Hlen & Hjoin & Hrep).
    exists ps. by rewrite Hrep.
  - pose proof (occs_replace_b _ _ _ content Hs5) as H.
    rewrite Hin5, occs_self in H by done. lia.
  - destruct (replace_join canvas_marker content Hne6 Hap6)
      as (ps & Hlen & Hjoin & Hrep).
    eexists _, ps. split; [exact Hend|]. rewrite <- Hend. by rewrite Hrep.
  - pose proof (occs_replace_b _ _ _ content Hs6) as H.
    rewrite Hin6, occs_self in H by done. lia.
Qed.

End RefactorFacts.

(** * Facts about remove-movie-code.py *)

Module RemoveFacts.
Import Text Py RemoveMovieCode.

Local Open Scope Z_scope.

Lemma elem_of_range (a b i : Z) : i ∈ range a b ↔ a ≤ i < b.
Proof.
  unfold range. rewrite list_elem_of_fmap. split.
  - intros (k & -> & Hk%elem_of_seq). lia.
  - intros Hi. exists (Z.to_nat (i - a)). split; [lia|].
    apply elem_of_seq. lia.
Qed.

Lemma elem_of_add_all (acc : gset Z) (l : list Z) (i : Z) :
  i ∈ foldl (fun (acc : gset Z) line_num => acc ∪ {[line_num]}) acc l
  ↔ i ∈ acc ∨ i ∈ l.
Proof.
  revert acc. induction l as [|x l IH]; intros acc; simpl.
  - rewrite elem_of_nil. tauto.
  - rewrite IH, elem_of_union, elem_of_singleton, elem_of_cons. tauto.
Qed.

(** The deletion plan is the union of the ranges, as 0-indexed positions. *)
Lemma elem_of_lines_to_delete (ranges : list (Z * Z * text)) (i : Z) :
  i ∈ lines_to_delete ranges
  ↔ ∃ start end_ desc, (start, end_, desc) ∈ ranges ∧ start - 1 ≤ i < end_.
Proof.
  unfold lines_to_delete.
  assert (∀ acc : gset Z,
    i ∈ foldl (fun (acc : gset Z) '(start, end_, desc) =>
                 foldl (fun (acc : gset Z) line_num => acc ∪ {[line_num]})
                       acc (range (start - 1) end_)) acc ranges
    ↔ i ∈ acc ∨ ∃ start end_ desc,
        (start, end_, desc) ∈ ranges ∧ start - 1 ≤ i < end_) as H.
  { induction ranges as [|[[s e] d] ranges IH]; intros acc; simpl.
    - split; [by left | intros [H | (? & ? & ? & H%elem_of_nil & _)]; done].
    - rewrite IH, elem_of_add_all, elem_of_range. split.
      + intros [[H | H] | (s' & e' & d' & Hin & H)].
        * by left.
        * right. exists s, e, d. split; [apply list_elem_of_here | done].
        * right. exists s', e', d'. split; [by apply list_elem_of_further | done].
      + intros [H | (s' & e' & d' & Hin & H)]; [by left; left|].
        apply elem_of_cons in Hin as [[= -> -> ->] | Hin].
        * left. by right.
        * right. by exists s', e', d'. }
  rewrite H. rewrite elem_of_empty. split; [intros [[] | H']; done | by right].
Qed.


(** The lines kept are those whose position is outside the plan: for a plan
    that is an interval within the positions seen, what is before it and
    what is after it. *)
Lemma kept_from_interval {A : Type} (deleted : gset Z) (a b : nat)
    (lines : list A) (k : nat) :
  (a ≤ b)%nat →
  (∀ i : Z, 0 ≤ i < Z.of_nat k + Z.of_nat (length lines) →
     i ∈ deleted ↔ Z.of_nat a ≤ i < Z.of_nat b) →
  (filter (fun p => p.1 ∉ deleted) (enumerate_from (Z.of_nat k) lines)).*2
  = take (a - k) lines ++ drop (b - k) lines.
Proof.
  intros Hab. revert k. induction lines as [|line lines IH]; intros k Hd.
  - by rewrite take_nil, drop_nil.
  - cbn [enumerate_from]. rewrite filter_cons. cbn [fst].
    assert (Z.of_nat k + 1 = Z.of_nat (S k)) as -> by lia.
    specialize (IH (S k)).
    assert ((filter (fun p : Z * A => p.1 ∉ deleted)
               (enumerate_from (Z.of_nat (S k)) lines)).*2
            = take (a - S k) lines ++ drop (b - S k) lines) as Hrest.
    { apply IH. intros i Hi. apply Hd. simpl length. lia. }
    specialize (Hd (Z.of_nat k)). simpl length in Hd.
    destruct (decide (Z.of_nat k ∉ deleted)) as [Hk | Hk].
    + rewrite fmap_cons, Hrest. cbn [snd]. rewrite Hd in Hk by lia.
      destruct (decide (k < a)%nat).
      * replace (a - k)%nat with (S (a - S k)) by lia.
        replace (b - k)%nat with (S (b - S k)) by lia. done.
      * replace (a - k)%nat with 0%nat by lia.
        replace (a - S k)%nat with 0%nat by lia.
        replace (b - k)%nat with 0%nat by lia.
        replace (b - S k)%nat with 0%nat by lia. done.
    + rewrite Hrest. apply dec_stable in Hk. rewrite Hd in Hk by lia.
      replace (a - k)%nat with 0%nat by lia.
      replace (a - S k)%nat with 0%nat by lia.
      replace (b - k)%nat with (S (b - S k)) by lia. done.
Qed.

Lemma kept_lines_interval {A : Type} (deleted : gset Z) (a b : nat)
    (lines : list A) :
  (a ≤ b)%nat →
  (∀ i : Z, 0 ≤ i < Z.of_nat (length lines) →
     i ∈ deleted ↔ Z.of_nat a ≤ i < Z.of_nat b) →
  kept_lines deleted lines = take a lines ++ drop b lines.
Proof.
  intros Hab Hd. unfold kept_lines.
  pose proof (kept_from_interval deleted a b lines 0 Hab) as H.
  rewrite !Nat.sub_0_r in H. apply H. intros i Hi. apply Hd. lia.
Qed.

(** Only the positions below the number of lines matter. *)
Lemma kept_from_ext {A : Type} (d1 d2 : gset Z) (lines : list A) (k : Z) :
  (∀ i : Z, k ≤ i < k + Z.of_nat (length lines) → i ∈ d1 ↔ i ∈ d2) →
  filter (fun p => p.1 ∉ d1) (enumerate_from k lines)
  = filter (fun p => p.1 ∉ d2) (enumerate_from k lines).
Proof.
  revert k. induction lines as [|line lines IH]; intros k Hd; [done|].
  cbn [enumerate_from]. rewrite !filter_cons. cbn [fst].
  rewrite (IH (k + 1)) by (intros i Hi; apply Hd; simpl length; lia).
  specialize (Hd k). simpl length in Hd.
  destruct (decide (k ∉ d1)) as [H1 | H1], (decide (k ∉ d2)) as [H2 | H2];
    try done; exfalso.
  - apply dec_stable in H2. apply H1, Hd; [lia | done].
  - apply dec_stable in H1. apply H2, Hd; [lia | done].
Qed.

Lemma kept_lines_ext {A : Type} (d1 d2 : gset Z) (lines : list A) :
  (∀ i : Z, 0 ≤ i < Z.of_nat (length lines) → i ∈ d1 ↔ i ∈ d2) →
  kept_lines d1 lines = kept_lines d2 lines.
Proof.
  intros Hd. unfold kept_lines. f_equal. apply kept_from_ext.
  intros i Hi. apply Hd. lia.
Qed.

(** C3: for every document of 100 lines and the ranges (10,12) and
    (12,15): the plan has six positions, line 12 counted once; the output is
    the first nine lines followed by the lines after the fifteenth, in their
    order, 94 lines in all; and what was line 9 is followed by what was line
    16. *)
Theorem union_deleted_once {A : Type} (lines : list A) (desc1 desc2 : text) :
  length lines = 100%nat →
  let ranges := [(10, 12, desc1); (12, 15, desc2)] in
  delete_ranges ranges lines = take 9 lines ++ drop 15 lines
  ∧ length (delete_ranges ranges lines) = 94%nat
  ∧ size (lines_to_delete ranges) = 6%nat
  ∧ delete_ranges ranges lines !! 8%nat = lines !! 8%nat
  ∧ delete_ranges ranges lines !! 9%nat = lines !! 15%nat.
Proof.
  intros Hlen ranges.
  assert (delete_ranges ranges lines = take 9 lines ++ drop 15 lines) as Heq.
  { unfold delete_ranges. apply kept_lines_interval; [lia|].
    intros i Hi. rewrite elem_of_lines_to_delete. unfold ranges. split.
    - intros (s & e & d & Hin & H).
      rewrite !elem_of_cons in Hin.
      destruct Hin as [[= -> -> ->] | [[= -> -> ->] | []%elem_of_nil]]; lia.
    - intros H. destruct (decide (i < 12)).
      + exists 10, 12, desc1. split; [apply list_elem_of_here | lia].
      + exists 12, 15, desc2.
        split; [apply list_elem_of_further, list_elem_of_here | lia]. }
  rewrite Heq. split_and!.
  - done.
  - rewrite length_app, length_take, length_drop. lia.
  - by vm_compute.
  - rewrite lookup_app_l by (rewrite length_take; lia).
    by rewrite lookup_take_lt by lia.
  - rewrite lookup_app_r by (rewrite length_take; lia).
    rewrite length_take, lookup_drop. f_equal. lia.
Qed.

Lemma union_deleted_once_witness :
  delete_ranges [(10, 12, T "a"); (12, 15, T "b")] (seq 1 100)
  = seq 1 9 ++ seq 16 85.
Proof.
  destruct (union_deleted_once (seq 1 100) (T "a") (T "b")) as [H _];
    [by vm_compute|].
  rewrite H. by vm_compute.
Defined.

(** C5: positions beyond the document have no effect and raise nothing.
    For every document and every list of ranges, the output is the one for
    the ranges cut at the number of lines; a range starting at 1 or later
    and ending at or beyond the last line removes exactly the lines from its
    start on; on 100 lines the range (95,200) leaves the first 94. *)
Theorem out_of_bounds_clipped {A : Type} (lines : list A) :
  (∀ ranges,
     delete_ranges ranges lines
     = delete_ranges (clipped (length lines) <$> ranges) lines)
  ∧ (∀ start end_ desc,
       1 ≤ start → Z.of_nat (length lines) ≤ end_ →
       delete_ranges [(start, end_, desc)] lines
       = take (Z.to_nat (start - 1)) lines)
  ∧ (∀ desc, length lines = 100%nat →
       delete_ranges [(95, 200, desc)] lines = take 94 lines).
Proof.
  assert (∀ start end_ desc,
       1 ≤ start → Z.of_nat (length lines) ≤ end_ →
       delete_ranges [(start, end_, desc)] lines
       = take (Z.to_nat (start - 1)) lines) as Hsingle.
  { intros start end_ desc Hs He. unfold delete_ranges.
    set (a := Z.to_nat (start - 1)).
    rewrite (kept_lines_interval _ (a `min` length lines) (length lines));
      [| lia |].
    - rewrite drop_all, app_nil_r.
      destruct (decide (a ≤ length lines)%nat).
      + by rewrite Nat.min_l by lia.
      + rewrite Nat.min_r by lia. by rewrite !take_ge by lia.
    - intros i Hi. rewrite elem_of_lines_to_delete. split.
      + intros (s & e & d & Hin & H).
        apply list_elem_of_singleton in Hin as [= -> -> ->]. lia.
      + intros H. exists start, end_, desc.
        split; [apply list_elem_of_here | lia]. }
  split_and!; [| exact Hsingle |].
  - intros ranges. unfold delete_ranges. apply kept_lines_ext.
    intros i Hi. rewrite !elem_of_lines_to_delete. split.
    + intros (s & e & d & Hin & H).
      exists s, (Z.min e (Z.of_nat (length lines))), d. split; [|lia].
      apply list_elem_of_fmap. by exists (s, e, d).
    + intros (s & e & d & Hin & H).
      apply list_elem_of_fmap in Hin as ([[s' e'] d'] & [= -> -> ->] & Hin).
      exists s', e', d'. simpl in H. split; [done | lia].
  - intros desc Hlen. rewrite Hsingle by lia. done.
Qed.

Lemma out_of_bounds_clipped_witness :
  delete_ranges [(95, 200, T "tail")] (seq 1 100) = seq 1 94.
Proof.
  destruct (out_of_bounds_clipped (seq 1 100)) as (_ & _ & H).
  rewrite H by (by vm_compute). by vm_compute.
Defined.

(** C8: the output path is the input path followed by [.cleaned], a
    different path.  For every list of ranges and every file system in which
    the input exists, [main] returns, the only file written is the output
    file, which receives the kept lines, and the input file keeps its
    content; when the input does not exist the call raises before anything
    is written. *)
Theorem output_beside_input (ranges : list (Z * Z * text)) (fs : files) :
  output_file = input_file ++ T ".cleaned"
  ∧ output_file ≠ input_file
  ∧ (∀ content, fs !! input_file = Some content →
       ∃ fs' rep,
         main_with ranges fs = Returned (fs', rep)
         ∧ fs' = <[output_file :=
                     concat (delete_ranges ranges (readlines content))]> fs
         ∧ fs' !! input_file = Some content
         ∧ ∀ p, p ≠ output_file → fs' !! p = fs !! p)
  ∧ (fs !! input_file = None →
       main_with ranges fs = Raised (FileNotFoundError input_file)).
Proof.
  assert (output_file ≠ input_file) as Hne by (by vm_compute).
  split_and!; [by vm_compute | done | | ].
  - intros content Hin. unfold main_with. rewrite Hin. cbn zeta.
    eexists _, _. split_and!; [done | done | |].
    + by rewrite lookup_insert_ne.
    + intros p Hp. by rewrite lookup_insert_ne.
  - intros Hin. unfold main_with. by rewrite Hin.
Qed.

Lemma output_beside_input_witness :
  ∃ fs' rep,
    main_with [(2, 2, T "second line")]
      {[ input_file := T "a" ++ nl ++ T "b" ++ nl ++ T "c" ++ nl ]}
    = Returned (fs', rep)
    ∧ fs' !! input_file = Some (T "a" ++ nl ++ T "b" ++ nl ++ T "c" ++ nl)
    ∧ fs' !! output_file = Some (T "a" ++ nl ++ T "c" ++ nl).
Proof.
  destruct (output_beside_input [(2, 2, T "second line")]
              {[ input_file := T "a" ++ nl ++ T "b" ++ nl ++ T "c" ++ nl ]})
    as (_ & _ & H & _).
  destruct (H _ (lookup_singleton_eq _ _)) as (fs' & rep & Hrun & Hfs & Hin & _).
  exists fs', rep. split_and!; [done | done |].
  rewrite Hfs, lookup_insert_eq. f_equal.
Defined.

End RemoveFacts.

(** * Further facts about remove-movie-code.py *)

Module RemoveMore.
Import Text Py RemoveMovieCode RemoveFacts.

Local Open Scope Z_scope.

Lemma covered_spec (ranges : list (Z * Z * text)) (n : Z) :
  covered ranges n = true
  ↔ ∃ start end_ desc, (start, end_, desc) ∈ ranges ∧ start ≤ n ≤ end_.
Proof.
  unfold covered. rewrite existsb_exists. split.
  - intros ([[s e] d] & Hin%list_elem_of_In & H). simpl in H.
    exists s, e, d. split; [done | lia].
  - intros (s & e & d & Hin & H). exists (s, e, d).
    split; [by apply list_elem_of_In | simpl; lia].
Qed.

(** X1: the two conversions of the loop, [start - 1] and the open end of
    [range], together implement ranges that are 1-indexed and inclusive, as
    the comment of [DELETE_RANGES] says: the output is the list of the lines
    whose number, counted from 1, lies in no range. *)
Theorem ranges_one_indexed_inclusive {A : Type}
    (ranges : list (Z * Z * text)) (lines : list A) :
  delete_ranges ranges lines
  = (filter (fun p => covered ranges (p.1 + 1) = false)
       (enumerate_from 0 lines)).*2.
Proof.
  unfold delete_ranges, kept_lines. f_equal. apply list_filter_iff.
  intros [i line]. cbn [fst]. rewrite elem_of_lines_to_delete.
  rewrite <- not_true_iff_false, covered_spec. split.
  - intros Hn (s & e & d & Hin & H). apply Hn. exists s, e, d.
    split; [done | lia].
  - intros Hn (s & e & d & Hin & H). apply Hn. exists s, e, d.
    split; [done | lia].
Qed.

(** X2: the plan depends on the ranges as a set of pairs of bounds: their
    order, repetitions and descriptions change neither the plan nor the
    output. *)
Theorem ranges_order_irrelevant {A : Type}
    (ranges1 ranges2 : list (Z * Z * text)) (lines : list A) :
  (∀ start end_, (∃ desc, (start, end_, desc) ∈ ranges1)
                 ↔ (∃ desc, (start, end_, desc) ∈ ranges2)) →
  lines_to_delete ranges1 = lines_to_delete ranges2
  ∧ delete_ranges ranges1 lines = delete_ranges ranges2 lines.
Proof.
  intros Hsame.
  assert (lines_to_delete ranges1 = lines_to_delete ranges2) as Heq.
  { apply set_eq. intros i. rewrite !elem_of_lines_to_delete. split.
    - intros (s & e & d & Hin & H).
      destruct (proj1 (Hsame s e)) as [d' Hin']; [by exists d|].
      by exists s, e, d'.
    - intros (s & e & d & Hin & H).
      destruct (proj2 (Hsame s e)) as [d' Hin']; [by exists d|].
      by exists s, e, d'. }
  split; [done|]. unfold delete_ranges. by rewrite Heq.
Qed.

Lemma ranges_order_irrelevant_witness :
  delete_ranges [(5, 6, T "b"); (1, 2, T "a"); (5, 6, T "again")] (seq 1 8)
  = delete_ranges [(1, 2, T "first"); (5, 6, T "second")] (seq 1 8).
Proof.
  apply (ranges_order_irrelevant
           [(5, 6, T "b"); (1, 2, T "a"); (5, 6, T "again")]
           [(1, 2, T "first"); (5, 6, T "second")] (seq 1 8)).
  intros s e. split; intros [d Hin]; rewrite !elem_of_cons in Hin;
    destruct Hin as [Hin | [Hin | Hin]]; try (by apply elem_of_nil in Hin);
    try (destruct Hin as [Hin | Hin]; [|by apply elem_of_nil in Hin]);
    injection Hin as -> -> ->; eexists; rewrite !elem_of_cons; eauto.
Defined.

(** *** Counting the lines *)

Lemma kept_from_length {A : Type} (deleted : gset Z) (lines : list A) (k : Z) :
  (length (filter (fun p => p.1 ∉ deleted) (enumerate_from k lines))
   + length (filter (fun i => i ∈ deleted)
               (seqZ k (Z.of_nat (length lines)))))%nat
  = length lines.
Proof.
  revert k. induction lines as [|line lines IH]; intros k; [done|].
  cbn [enumerate_from length].
  rewrite (seqZ_cons k) by lia.
  replace (Z.pred (Z.of_nat (S (length lines))))
    with (Z.of_nat (length lines)) by lia.
  replace (Z.succ k) with (k + 1) by lia.
  rewrite !filter_cons. cbn [fst]. specialize (IH (k + 1)).
  destruct (decide (k ∉ deleted)) as [H1 | H1],
           (decide (k ∈ deleted)) as [H2 | H2]; simpl; try lia; try done.
Qed.

Lemma in_plan_le_size (deleted : gset Z) (n : nat) :
  (in_plan deleted n ≤ size deleted)%nat.
Proof.
  unfold in_plan.
  set (l := filter (fun i => i ∈ deleted) (seqZ 0 (Z.of_nat n))).
  assert (NoDup l) as Hnd by apply NoDup_filter, NoDup_seqZ.
  rewrite <- (size_list_to_set (C := gset Z) l Hnd).
  apply subseteq_size. intros i Hi%elem_of_list_to_set.
  by apply list_elem_of_filter in Hi as [Hi _].
Qed.

Lemma in_plan_eq_size (deleted : gset Z) (n : nat) :
  (∀ i, i ∈ deleted → 0 ≤ i < Z.of_nat n) →
  in_plan deleted n = size deleted.
Proof.
  intros Hin. unfold in_plan.
  set (l := filter (fun i => i ∈ deleted) (seqZ 0 (Z.of_nat n))).
  assert (NoDup l) as Hnd by apply NoDup_filter, NoDup_seqZ.
  rewrite <- (size_list_to_set (C := gset Z) l Hnd). f_equal.
  apply set_eq. intros i. rewrite elem_of_list_to_set.
  unfold l. rewrite list_elem_of_filter, elem_of_seqZ. split; [tauto|].
  intros Hi. split; [done|]. specialize (Hin i Hi). lia.
Qed.

(** What [main_with] returns when the input exists. *)
Lemma main_with_returns (ranges : list (Z * Z * text)) (fs : files)
    (content : text) :
  fs !! input_file = Some content →
  ∃ fs' rep,
    main_with ranges fs = Returned (fs', rep)
    ∧ original_lines rep = length (readlines content)
    ∧ remaining_lines rep
      = length (delete_ranges ranges (readlines content))
    ∧ lines_deleted rep = size (lines_to_delete ranges).
Proof.
  intros Hin. unfold main_with. rewrite Hin. cbn zeta.
  eexists _, _. split; [reflexivity|]. by split_and!.
Qed.

Lemma kept_plus_in_plan {A : Type} (deleted : gset Z) (lines : list A) :
  (length (kept_lines deleted lines) + in_plan deleted (length lines)
   = length lines)%nat.
Proof.
  unfold kept_lines, in_plan. rewrite length_fmap.
  apply (kept_from_length deleted lines 0).
Qed.

Lemma in_plan_ranges_within (ranges : list (Z * Z * text)) (n : nat) :
  Forall (fun r => 1 ≤ r.1.1 ∧ r.1.2 ≤ Z.of_nat n) ranges →
  in_plan (lines_to_delete ranges) n = size (lines_to_delete ranges).
Proof.
  intros Hall. apply in_plan_eq_size.
  intros i (s & e & d & Hr & Hi)%elem_of_lines_to_delete.
  rewrite Forall_forall in Hall. specialize (Hall _ Hr). simpl in Hall. lia.
Qed.

(** X3: the three numbers [main] prints, for every list of ranges and every
    input: the lines kept and the positions of the plan that fall inside the
    document add up to the lines read, so no more lines are removed than the
    plan has positions; when every range lies inside the document (from line
    1 at least to the last line at most), [Remaining lines] is exactly
    [Original lines] minus [Lines deleted]. *)
Theorem report_adds_up (ranges : list (Z * Z * text)) (fs : files)
    (content : text) :
  fs !! input_file = Some content →
  ∃ fs' rep,
    main_with ranges fs = Returned (fs', rep)
    ∧ original_lines rep = length (readlines content)
    ∧ remaining_lines rep
      = length (delete_ranges ranges (readlines content))
    ∧ lines_deleted rep = size (lines_to_delete ranges)
    ∧ (remaining_lines rep
       + in_plan (lines_to_delete ranges) (original_lines rep)
       = original_lines rep)%nat
    ∧ (original_lines rep - remaining_lines rep ≤ lines_deleted rep)%nat
    ∧ (Forall (fun r => 1 ≤ r.1.1 ∧ r.1.2 ≤ Z.of_nat (original_lines rep))
         ranges →
       (remaining_lines rep + lines_deleted rep = original_lines rep)%nat).
Proof.
  intros Hin.
  destruct (main_with_returns ranges fs content Hin)
    as (fs' & rep & Hrun & Horig & Hrem & Hdel).
  exists fs', rep.
  pose proof (kept_plus_in_plan (lines_to_delete ranges) (readlines content))
    as Hsum.
  fold (delete_ranges ranges (readlines content)) in Hsum.
  pose proof (in_plan_le_size (lines_to_delete ranges)
                (length (readlines content))) as Hle.
  rewrite Horig, Hrem, Hdel.
  split_and!; [exact Hrun | done | done | done | exact Hsum | lia |].
  intros Hall. rewrite <- (in_plan_ranges_within ranges _ Hall). exact Hsum.
Qed.

Lemma report_adds_up_witness :
  ∃ fs' rep,
    main_with [(2, 3, T "middle"); (3, 9, T "tail")]
      {[ input_file := T "a" ++ nl ++ T "b" ++ nl ++ T "c" ++ nl ++ T "d" ]}
    = Returned (fs', rep)
    ∧ (original_lines rep - remaining_lines rep ≤ lines_deleted rep)%nat.
Proof.
  destruct (report_adds_up [(2, 3, T "middle"); (3, 9, T "tail")]
              {[ input_file := T "a" ++ nl ++ T "b" ++ nl ++ T "c" ++ nl ++ T "d" ]}
              (T "a" ++ nl ++ T "b" ++ nl ++ T "c" ++ nl ++ T "d"))
    as (fs' & rep & Hrun & _ & _ & _ & _ & Hle & _).
  - apply lookup_singleton_eq.
  - exists fs', rep. split; [exact Hrun | exact Hle].
Defined.

(** X4: the script as it is run: on every input of at least 3398 lines, the
    last line any range names, the hard-coded ranges remove exactly 1058
    lines, none of them twice. *)
Theorem main_removes_1058 (fs : files) (content : text) :
  fs !! input_file = Some content →
  (3398 ≤ length (readlines content))%nat →
  ∃ fs' rep,
    main fs = Returned (fs', rep)
    ∧ original_lines rep = length (readlines content)
    ∧ lines_deleted rep = 1058%nat
    ∧ sum_list ((fun r => Z.to_nat (r.1.2 - r.1.1 + 1)) <$> DELETE_RANGES)
      = 1058%nat
    ∧ (remaining_lines rep + 1058 = original_lines rep)%nat.
Proof.
  intros Hin Hlen. unfold main.
  destruct (main_with_returns DELETE_RANGES fs content Hin)
    as (fs' & rep & Hrun & Horig & Hrem & Hdel).
  exists fs', rep. split; [exact Hrun|].
  assert (size (lines_to_delete DELETE_RANGES) = 1058%nat) as Hsize
    by (vm_compute; reflexivity).
  rewrite Hsize in Hdel.
  split_and!; [exact Horig | exact Hdel | vm_compute; reflexivity |].
  pose proof (kept_plus_in_plan (lines_to_delete DELETE_RANGES)
                (readlines content)) as Hsum.
  fold (delete_ranges DELETE_RANGES (readlines content)) in Hsum.
  rewrite in_plan_ranges_within, Hsize in Hsum; [lia|].
  assert (forallb (fun r : Z * Z * text => (1 <=? r.1.1) && (r.1.2 <=? 3398))
            DELETE_RANGES = true) as Hb by (vm_compute; reflexivity).
  rewrite forallb_forall in Hb. apply Forall_forall. intros r Hr.
  apply list_elem_of_In, Hb in Hr. lia.
Qed.

Lemma main_removes_1058_witness :
  ∃ fs' rep,
    main {[ input_file := replicate 3400 "010"%char ]} = Returned (fs', rep)
    ∧ remaining_lines rep = 2342%nat.
Proof.
  destruct (main_removes_1058 {[ input_file := replicate 3400 "010"%char ]}
              (replicate 3400 "010"%char))
    as (fs' & rep & Hrun & Horig & _ & _ & Hrem).
  - apply lookup_singleton_eq.
  - vm_compute. lia.
  - exists fs', rep. split; [exact Hrun|].
    assert (length (readlines (replicate 3400 "010"%char)) = 3400%nat) as Hn
      by (vm_compute; reflexivity).
    lia.
Defined.

(** *** Reading and writing the lines *)

Lemma readlines_concat (s : text) : concat (readlines s) = s.
Proof.
  induction s as [|c s IH]; [done|]. cbn [readlines].
  destruct (Ascii.eqb c "010").
  - simpl. by rewrite IH.
  - destruct (readlines s) as [|l ls]; simpl in *; by rewrite <- IH.
Qed.

Lemma enumerate_from_snd {A : Type} (k : Z) (lines : list A) :
  (enumerate_from k lines).*2 = lines.
Proof.
  revert k. induction lines as [|line lines IH]; intros k; [done|].
  simpl. by rewrite IH.
Qed.

Lemma concat_sublist {A : Type} (ls ks : list (list A)) :
  ls `sublist_of` ks → concat ls `sublist_of` concat ks.
Proof.
  induction 1 as [|l ls ks _ IH|l ls ks _ IH]; simpl.
  - constructor.
  - by apply sublist_app.
  - by apply sublist_inserts_l.
Qed.

(** X5: what [main] writes to the output file is made of lines of the input
    file, in their order: for every list of ranges and every input, the kept
    lines are a sublist of the lines read, and the text written is the text
    read with characters only taken out.  Nothing is added, changed or
    moved.  Reading a text into lines and writing the lines back gives the
    text, so with ranges that cover no line of the document the output file
    holds the text of the input file.  The files hold text as the text mode
    of [open] gives and takes it, after and before the translation of line
    endings. *)
Theorem output_from_input (ranges : list (Z * Z * text)) (fs : files)
    (content : text) :
  fs !! input_file = Some content →
  ∃ fs' rep written,
    main_with ranges fs = Returned (fs', rep)
    ∧ fs' !! output_file = Some written
    ∧ fs' !! input_file = Some content
    ∧ written = concat (delete_ranges ranges (readlines content))
    ∧ delete_ranges ranges (readlines content) `sublist_of` readlines content
    ∧ written `sublist_of` content
    ∧ ((∀ n, 1 ≤ n ≤ Z.of_nat (length (readlines content)) →
          covered ranges n = false) →
       written = content ∧ fs' !! output_file = fs' !! input_file).
Proof.
  intros Hin.
  assert (delete_ranges ranges (readlines content)
            `sublist_of` readlines content) as Hsub.
  { unfold delete_ranges, kept_lines.
    rewrite <- (enumerate_from_snd 0 (readlines content)) at 2.
    apply fmap_sublist, sublist_filter. }
  assert (output_file ≠ input_file) as Hne by (by vm_compute).
  unfold main_with. rewrite Hin. cbn zeta.
  eexists _, _, _. split; [reflexivity|].
  split; [apply lookup_insert_eq|].
  split; [by rewrite lookup_insert_ne|].
  split; [reflexivity|]. split; [exact Hsub|]. split.
  - rewrite <- (readlines_concat content) at 2. by apply concat_sublist.
  - intros Hnone.
    assert (delete_ranges ranges (readlines content) = readlines content)
      as Hall.
    { unfold delete_ranges.
      rewrite (kept_lines_interval _ 0 0) by
        (lia || (intros i Hi; rewrite elem_of_lines_to_delete; split;
                 [intros (s & e & d & Hmem & H); exfalso;
                  specialize (Hnone (i + 1) ltac:(lia));
                  apply not_true_iff_false in Hnone; apply Hnone;
                  apply covered_spec; exists s, e, d; split; [done | lia]
                 | lia])).
      done. }
    fold (delete_ranges ranges (readlines content)).
    rewrite Hall, readlines_concat. split; [done|].
    by rewrite lookup_insert_eq, lookup_insert_ne.
Qed.

Lemma output_from_input_witness :
  let content := T "a" ++ nl ++ T "b" ++ nl ++ T "c" in
  ∃ fs' rep,
    main_with [(4, 7, T "beyond"); (0, 0, T "before")]
      {[ input_file := content ]} = Returned (fs', rep)
    ∧ fs' !! output_file = Some content
    ∧ fs' !! input_file = Some content.
Proof.
  intros content.
  destruct (output_from_input [(4, 7, T "beyond"); (0, 0, T "before")]
              {[ input_file := content ]} content)
    as (fs' & rep & written & Hrun & Hout & Hin & _ & _ & _ & Hsame).
  { apply lookup_singleton_eq. }
  exists fs', rep. split_and!; [exact Hrun | | exact Hin].
  destruct Hsame as [-> _]; [|exact Hout].
  intros n Hn.
  assert (length (readlines content) = 3%nat) as Hlen by reflexivity.
  rewrite Hlen in Hn.
  assert (n = 1 ∨ n = 2 ∨ n = 3) as [-> | [-> | ->]] by lia; reflexivity.
Defined.

End RemoveMore.

(** * Further facts about refactor_movie_pages.py *)

Module RefactorMore.
Import Text TextFacts Regex RegexFacts Py Refactor RefactorFacts.

(** *** The run as a whole *)

Lemma refactor_file_effect (fs : files) (filepath : Path) (effect_key : text)
    (config : Config) :
  dict_get EFFECTS effect_key = Some config →
  ∃ fs',
    refactor_file fs filepath effect_key
    = Returned (fs', changed fs filepath effect_key)
    ∧ fs' !! filepath = refactor_content config effect_key <$> fs !! filepath
    ∧ ∀ p, p ≠ filepath → fs' !! p = fs !! p.
Proof.
  intros Hkey. unfold changed. rewrite Hkey.
  destruct (fs !! filepath) as [d|] eqn:Hd.
  - rewrite (refactor_file_present fs filepath effect_key config d Hd Hkey).
    cbn zeta. case_decide as Hc.
    + exists fs. rewrite bool_decide_eq_false_2 by (by intros ?).
      rewrite Hd. simpl. by rewrite Hc.
    + eexists. rewrite bool_decide_eq_true_2 by done.
      split_and!; [done | by rewrite lookup_insert_eq |].
      intros p Hp. by rewrite lookup_insert_ne.
  - rewrite refactor_file_missing by done. exists fs. by rewrite Hd.
Qed.

Lemma refactor_all_effect (todo : list (Path * text)) :
  Forall (fun pk => is_Some (dict_get EFFECTS pk.2)) todo →
  NoDup todo.*1 →
  ∀ (fs : files) (acc : list (text * bool)),
  ∃ fs',
    refactor_all fs todo acc
    = Returned (fs', acc ++ ((fun pk => (name pk.1, changed fs pk.1 pk.2))
                             <$> todo))
    ∧ (∀ p, p ∉ todo.*1 → fs' !! p = fs !! p)
    ∧ (∀ p effect_key config,
         (p, effect_key) ∈ todo →
         dict_get EFFECTS effect_key = Some config →
         fs' !! p = refactor_content config effect_key <$> fs !! p).
Proof.
  induction 1 as [|[filepath effect_key] todo [config Hkey] _ IH];
    intros Hnd fs acc.
  - exists fs. rewrite app_nil_r. split_and!; [done | done |].
    intros p k c Hin. by apply elem_of_nil in Hin.
  - rewrite fmap_cons in Hnd. apply NoDup_cons in Hnd as [Hfresh Hnd].
    cbn [fst] in Hfresh. cbn [snd] in Hkey.
    destruct (refactor_file_effect fs filepath effect_key config Hkey)
      as (fs1 & Hrun & Hhere & Hframe).
    destruct (IH Hnd fs1 (acc ++ [(name filepath, changed fs filepath effect_key)]))
      as (fs' & Hall & Hout & Hin).
    exists fs'. cbn [refactor_all]. rewrite Hrun.
    cbn [mbind outcome_bind]. rewrite Hall.
    split_and!.
    + assert ((fun pk : Path * text => (name pk.1, changed fs1 pk.1 pk.2))
                <$> todo
              = (fun pk : Path * text => (name pk.1, changed fs pk.1 pk.2))
                <$> todo) as ->.
      { apply list_fmap_ext. intros i [p k] Hlook. cbn [fst snd].
        unfold changed. rewrite Hframe; [done|].
        intros ->. apply Hfresh. apply list_elem_of_fmap.
        exists (filepath, k). split; [done|].
        by eapply list_elem_of_lookup_2. }
      by rewrite <- app_assoc.
    + intros p Hp. apply not_elem_of_cons in Hp as [Hne Hp]. rewrite Hout by done. by apply Hframe.
    + intros p k c Hmem Hk. apply elem_of_cons in Hmem as [Heq | Hmem].
      * assert (p = filepath ∧ k = effect_key) as [-> ->]
          by (by injection Heq).
        rewrite Hout by done. rewrite Hhere.
        assert (c = config) as -> by congruence. done.
      * rewrite (Hin p k c Hmem Hk). rewrite Hframe; [done|].
        intros ->. apply Hfresh. apply list_elem_of_fmap. by exists (filepath, k).
Qed.

Lemma files_to_refactor_NoDup (script_dir : Path) :
  NoDup (files_to_refactor script_dir).*1.
Proof.
  set (base_path := script_dir ++ [T "src"; T "pages"; T "movies"]).
  assert ((files_to_refactor script_dir).*1
          = (fun a => base_path ++ [a])
            <$> [T "TurntableMoviePage.tsx"; T "RevealMoviePage.tsx";
                 T "OrbitMoviePage.tsx"; T "ExplosionMoviePage.tsx"]) as ->
    by reflexivity.
  apply NoDup_fmap_2.
  - intros a b H%app_inv_head. by injection H.
  - repeat (apply NoDup_cons; split;
            [intros Hin; rewrite ?elem_of_cons in Hin;
             repeat (destruct Hin as [Hin | Hin]; [discriminate Hin|]);
             by apply elem_of_nil in Hin |]).
    apply NoDup_nil_2.
Qed.

(** X6: [main] transforms each of the four pages once, with its own rule and
    independently of the others: for every script directory and file system
    it returns; every page that exists ends with the content
    [refactor_content] computes from its original content, every other path
    is as before (nothing is created or deleted), and [results] records for
    each page, in order, whether it existed and was changed. *)
Theorem main_transforms_each_page (script_dir : Path) (fs : files) :
  ∃ fs' results,
    main script_dir fs = Returned (fs', results, summary results)
    ∧ results = (fun pk => (name pk.1, changed fs pk.1 pk.2))
                <$> files_to_refactor script_dir
    ∧ (∀ p effect_key config,
         (p, effect_key) ∈ files_to_refactor script_dir →
         dict_get EFFECTS effect_key = Some config →
         fs' !! p = refactor_content config effect_key <$> fs !! p)
    ∧ (∀ p, p ∉ (files_to_refactor script_dir).*1 → fs' !! p = fs !! p).
Proof.
  destruct (refactor_all_effect (files_to_refactor script_dir))
    with (fs := fs) (acc := @nil (text * bool)) as (fs' & Hall & Hout & Hin).
  { unfold files_to_refactor. cbn zeta. rewrite !Forall_cons.
    split_and!; try (by eexists); apply Forall_nil_2. }
  { apply files_to_refactor_NoDup. }
  rewrite app_nil_l in Hall.
  eexists fs', _. unfold main. rewrite Hall.
  cbn [mbind outcome_bind mret outcome_ret].
  split_and!; [reflexivity | reflexivity | exact Hin | exact Hout].
Qed.

(** *** Unknown keys *)

Lemma refactor_all_app (fs : files) (todo1 todo2 : list (Path * text))
    (acc : list (text * bool)) :
  refactor_all fs (todo1 ++ todo2) acc
  = '(fs1, acc1) ← refactor_all fs todo1 acc; refactor_all fs1 todo2 acc1.
Proof.
  revert fs acc. induction todo1 as [|[p k] todo1 IH]; intros fs acc; [done|].
  cbn [app refactor_all].
  destruct (refactor_file fs p k) as [[fs1 b]|e]; [|done].
  cbn [mbind outcome_bind]. apply IH.
Qed.

(** X7: unlike a missing file, a key that is not in [EFFECTS] is not turned
    into a [False]: for a file that exists, [refactor_file] raises
    [KeyError] with that key, and the loop of [main] stops there, whatever
    files come after, when the entries before it have known keys.  When the
    file does not exist the key is never looked up and the call returns
    [False]. *)
Theorem unknown_key_raises (fs : files) (filepath : Path) (effect_key : text)
    (before after : list (Path * text)) (acc : list (text * bool)) :
  dict_get EFFECTS effect_key = None →
  Forall (fun pk => is_Some (dict_get EFFECTS pk.2)) before →
  (is_Some (fs !! filepath) →
     refactor_file fs filepath effect_key = Raised (KeyError effect_key)
     ∧ refactor_all fs (before ++ (filepath, effect_key) :: after) acc
       = Raised (KeyError effect_key))
  ∧ (fs !! filepath = None →
     refactor_file fs filepath effect_key = Returned (fs, false)).
Proof.
  intros Hkey Hbefore. split; [|apply refactor_file_missing].
  intros [d Hd]. split.
  - unfold refactor_file. by rewrite Hd, Hkey.
  - rewrite refactor_all_app.
    destruct (refactor_all_returns before Hbefore fs acc)
      as (fs1 & rs & -> & _ & Hdom & _).
    cbn [mbind outcome_bind refactor_all].
    assert (is_Some (fs1 !! filepath)) as [d1 Hd1].
    { destruct (fs1 !! filepath) eqn:H1; [done|].
      apply Hdom in H1. congruence. }
    unfold refactor_file. by rewrite Hd1, Hkey.
Qed.

Lemma unknown_key_raises_witness :
  let page : Path := [T "pages"; T "ZoomMoviePage.tsx"] in
  refactor_all {[ page := T "export {}" ]}
    [([T "pages"; T "OrbitMoviePage.tsx"], T "orbit"); (page, T "zoom");
     ([T "pages"; T "RevealMoviePage.tsx"], T "reveal")] []
  = Raised (KeyError (T "zoom")).
Proof.
  intros page.
  destruct (unknown_key_raises {[ page := T "export {}" ]} page (T "zoom")
              [([T "pages"; T "OrbitMoviePage.tsx"], T "orbit")]
              [([T "pages"; T "RevealMoviePage.tsx"], T "reveal")] [])
    as [H _].
  - reflexivity.
  - apply Forall_cons. split; [by eexists | apply Forall_nil_2].
  - apply H. rewrite lookup_singleton_eq. by eexists.
Defined.

(** *** Step 2 *)

(** X8: for every rule and every content, step 2 replaces every occurrence of
    the legacy state declaration: none remains, and the declaration of the
    reference occurs once more for each one replaced. *)
Theorem state_declaration_swapped (effect_key : text) (config : Config)
    (content : text) :
  dict_get EFFECTS effect_key = Some config →
  occs old_state (step2 config content) = 0
  ∧ occs (new_state config) (step2 config content)
    = occs old_state content + occs (new_state config) content
  ∧ ∃ pieces,
      length pieces = S (occs old_state content)
      ∧ content = join old_state pieces
      ∧ step2 config content = join (new_state config) pieces.
Proof.
  intros Hkey.
  assert (separable old_state old_state (new_state config) = true
          ∧ separable (new_state config) old_state (new_state config) = true
          ∧ occs old_state (new_state config) = 0
          ∧ occs (new_state config) old_state = 0
          ∧ new_state config ≠ [])
    as (Hs1 & Hs2 & Hon & Hno & Hne).
  { destruct (EFFECTS_cases _ _ Hkey) as [H | [H | [H | H]]];
      injection H as -> ->; by vm_compute. }
  assert (old_state ≠ []) as Hold by done.
  pose proof (occs_replace_b _ _ _ content Hs1) as H1.
  pose proof (occs_replace_b _ _ _ content Hs2) as H2.
  fold (step2 config content) in H1, H2.
  rewrite occs_self, Hon in H1 by done. rewrite occs_self, Hno in H2 by done.
  split_and!; [lia | lia |].
  destruct (replace_join old_state content Hold) as (ps & Hlen & Hjoin & Hrep).
  { by apply apartb_sound; vm_compute. }
  exists ps. split_and!; [done | done | apply Hrep].
Qed.

Lemma state_declaration_swapped_witness :
  step2 reveal_rule (T "function Page() {" ++ nl ++ old_state ++ nl ++ T "}")
  = T "function Page() {" ++ nl
    ++ T "  const revealPlayerRef = useRef<RevealMovieHandle | null>(null);"
    ++ nl ++ T "}"
  ∧ occs old_state
      (step2 reveal_rule
         (T "function Page() {" ++ nl ++ old_state ++ nl ++ T "}")) = 0.
Proof.
  destruct (state_declaration_swapped (T "reveal") reveal_rule
              (T "function Page() {" ++ nl ++ old_state ++ nl ++ T "}"))
    as (Hnone & _); [reflexivity|].
  split; [by vm_compute | exact Hnone].
Defined.

(** *** The rule table *)

(** X9: the names the generated code uses are the names the new import brings
    in: for every rule, the new-import block imports
    [Movie<effect_name>Player] and the type [<handle_type>], which steps 6
    and 2 mention; the reference is named after the key, and the handle type
    after the effect name.  The block starts with the commented-out legacy
    import line for every key but [turntable], where the line searched for
    is spelled [TurntableEffect] and the block comments out
    [TurnTableEffect]. *)
Theorem rule_names_agree (effect_key : text) (config : Config) :
  dict_get EFFECTS effect_key = Some config →
  contains (T "import Movie" ++ effect_name config ++ T "Player, { type "
            ++ handle_type config ++ T " } from ") (new_import config) = true
  ∧ contains (T "<Movie" ++ effect_name config ++ T "Player")
      (controller_jsx config effect_key) = true
  ∧ contains (T "useRef<" ++ handle_type config ++ T " | null>")
      (new_state config) = true
  ∧ ref_name config = effect_key ++ T "PlayerRef"
  ∧ handle_type config = effect_name config ++ T "MovieHandle"
  ∧ (is_prefix (T "// " ++ old_import_line config) (new_import config)
     = negb (bool_decide (effect_key = T "turntable"))).
Proof.
  intros Hkey.
  destruct (EFFECTS_cases _ _ Hkey) as [H | [H | [H | H]]];
    injection H as -> ->; by vm_compute.
Qed.

Lemma rule_names_agree_witness :
  is_prefix (T "// " ++ old_import_line turntable_rule)
    (new_import turntable_rule) = false
  ∧ is_prefix (T "// " ++ old_import_line orbit_rule)
      (new_import orbit_rule) = true.
Proof.
  destruct (rule_names_agree (T "turntable") turntable_rule)
    as (_ & _ & _ & _ & _ & H1); [reflexivity|].
  destruct (rule_names_agree (T "orbit") orbit_rule)
    as (_ & _ & _ & _ & _ & H2); [reflexivity|].
  by rewrite H1, H2.
Defined.

End RefactorMore.

(** * Facts about steps 3 and 4 *)

Module RewriteFacts.
Import Text TextFacts Regex RegexFacts Py Refactor RefactorFacts.

(** *** Step 3 leaves none of its patterns *)

Lemma occs_app_ge (q u v : text) :
  q ≠ [] → occs q u + occs q v ≤ occs q (u ++ v).
Proof.
  intros Hq. induction u as [|c u IH]; [by rewrite (occs_nil q Hq)|].
  simpl. destruct (is_prefix q (c :: u)) eqn:Hp; [|lia].
  apply is_prefix_spec in Hp.
  apply prefix_app_r with (l3 := v) in Hp.
  apply is_prefix_spec in Hp. simpl in Hp. rewrite Hp. lia.
Qed.

Lemma occs_join_ge (q m : text) (ps : list text) :
  q ≠ [] → sum_list (occs q <$> ps) ≤ occs q (join m ps).
Proof.
  intros Hq. induction ps as [|p ps IH]; [simpl; lia|].
  destruct ps as [|p' ps]; [simpl; lia|].
  rewrite join_cons by done. rewrite fmap_cons. cbn [sum_list sum_list_with].
  pose proof (occs_app_ge q p (m ++ join m (p' :: ps)) Hq).
  pose proof (occs_app_ge q m (join m (p' :: ps)) Hq).
  simpl in *. lia.
Qed.

(** Replacing [m] by [r] creates no occurrence of [q] when [q] cannot lie
    across a border of [r]. *)
Lemma occs_replace_le (q m r s : text) :
  q ≠ [] → m ≠ [] → apart m m → apart q r →
  occs q (replace m r s) ≤ occs q s + occs m s * occs q r.
Proof.
  intros Hq Hm Hmm Hqr.
  destruct (replace_join m s Hm Hmm) as (ps & Hlen & Hs & Hr).
  assert (ps ≠ []) by (by destruct ps).
  rewrite Hr, occs_join by done.
  pose proof (occs_join_ge q m ps Hq) as Hge. rewrite <- Hs in Hge.
  rewrite Hlen. simpl. rewrite Nat.sub_0_r. lia.
Qed.

Lemma sub_adds_none (q : text) (pr : text * text) (content : text) :
  adds_none q pr = true →
  occs q (sub (compile false pr.1) pr.2 content) ≤ occs q content.
Proof.
  unfold adds_none.
  destruct (lits_of (compile false pr.1)) as [m|] eqn:Hm; [|done].
  rewrite !andb_true_iff, !negb_true_iff, !bool_decide_eq_false, Nat.eqb_eq.
  intros ((((Hq & Hne) & Hmm) & Hqr) & Hnone).
  apply lits_of_Some in Hm as ->. rewrite sub_lits by done.
  pose proof (occs_replace_le q m pr.2 content Hq Hne
                (apartb_sound _ _ Hmm) (apartb_sound _ _ Hqr)) as H.
  rewrite Hnone in H. lia.
Qed.

Lemma step3_from_adds_none (q : text) (rs : list (text * text))
    (content : text) :
  forallb (adds_none q) rs = true →
  occs q (step3_from rs content) ≤ occs q content.
Proof.
  unfold step3_from. revert content.
  induction rs as [|pr rs IH]; intros content; [done|].
  simpl. rewrite andb_true_iff. intros [Hpr Hrs].
  etrans; [by apply IH | by apply sub_adds_none].
Qed.

Lemma sub_removes_own (pr : text * text) (content : text) :
  removes_own pr = true →
  occs (literal pr) (sub (compile false pr.1) pr.2 content) = 0.
Proof.
  unfold removes_own, literal.
  destruct (lits_of (compile false pr.1)) as [m|] eqn:Hm; [|done].
  rewrite andb_true_iff, Nat.eqb_eq. intros [Hsep Hnone]. simpl.
  apply lits_of_Some in Hm as ->.
  assert (m ≠ []) as Hne by (by eapply separable_nonempty).
  rewrite sub_lits by done.
  pose proof (occs_replace_b m m pr.2 content Hsep) as H.
  rewrite occs_self, Hnone in H by done. lia.
Qed.

Lemma step3_from_each_gone (rs : list (text * text)) :
  each_gone rs = true →
  ∀ content,
    Forall (fun pr => occs (literal pr) (step3_from rs content) = 0) rs.
Proof.
  induction rs as [|pr rs IH]; intros Hall content; [constructor|].
  cbn [each_gone] in Hall. rewrite !andb_true_iff in Hall.
  destruct Hall as [[Hown Hlater] Hrest].
  assert (step3_from (pr :: rs) content
          = step3_from rs (sub (compile false pr.1) pr.2 content)) as ->
    by reflexivity.
  constructor; [|by apply IH].
  pose proof (step3_from_adds_none (literal pr) rs
                (sub (compile false pr.1) pr.2 content) Hlater) as Hle.
  rewrite sub_removes_own in Hle by done. lia.
Qed.

(** X10: for every rule and every content, none of the twelve forms step 3 looks
    for occurs in the content it returns: each rewrite removes every
    occurrence of its pattern, and no later rewrite of the list creates
    one. *)
Theorem step3_leaves_no_legacy_form (effect_key : text) (config : Config)
    (content : text) :
  dict_get EFFECTS effect_key = Some config →
  literal <$> replacements config
  = [ T "activeEffectInstance.play()"; T "activeEffectInstance.pause()";
      T "activeEffectInstance.stop()"; T "activeEffectInstance.dispose()";
      T "activeEffectInstance.getConfig()";
      T "activeEffectInstance.setRecording(";
      T "activeEffectInstance.setConfig("; T "if (activeEffectInstance)";
      T "if (!activeEffectInstance)"; T "activeEffectInstance && (";
      T "{activeEffectInstance &&"; T "activeEffectInstance?." ]
  ∧ Forall (fun form => contains form (step3 config content) = false)
      (literal <$> replacements config).
Proof.
  intros Hkey. split; [by vm_compute|].
  assert (each_gone (replacements config) = true) as Hall.
  { destruct (EFFECTS_cases _ _ Hkey) as [H | [H | [H | H]]];
      injection H as -> ->; by vm_compute. }
  apply Forall_fmap.
  eapply Forall_impl; [exact (step3_from_each_gone _ Hall content)|].
  intros pr Hpr. cbn beta in Hpr |- *. apply occs_zero; [|exact Hpr].
  intros Hnil. rewrite Hnil in Hpr. clear -Hpr.
  destruct (step3_from (replacements config) content); simpl in Hpr; lia.
Qed.

Lemma step3_leaves_no_legacy_form_witness :
  contains (T "if (activeEffectInstance)")
    (step3 explosion_rule
       (T "if (activeEffectInstance) { activeEffectInstance.stop(); }"))
  = false.
Proof.
  destruct (step3_leaves_no_legacy_form (T "explosion") explosion_rule
              (T "if (activeEffectInstance) { activeEffectInstance.stop(); }"))
    as [Hforms Hnone]; [reflexivity|].
  rewrite Hforms in Hnone. rewrite !Forall_cons in Hnone.
  by destruct Hnone as (_ & _ & _ & _ & _ & _ & _ & H & _).
Defined.

(** *** Pages the script leaves alone *)

Lemma contains_trans (a b c : text) :
  contains a b = true → contains b c = true → contains a c = true.
Proof.
  rewrite !contains_spec. intros (l1 & l2 & ->) (k1 & k2 & ->).
  exists (k1 ++ l1), (l2 ++ k2). by rewrite <- !app_assoc.
Qed.

Lemma contains_absent (a b c : text) :
  contains a b = true → contains a c = false → contains b c = false.
Proof.
  intros Hab Hac. destruct (contains b c) eqn:Hbc; [|done].
  by rewrite (contains_trans a b c Hab Hbc) in Hac.
Qed.

Lemma match_here_head (r : regex) (s : text) (n : nat) :
  match_here r s = Some n → is_prefix (literal_head r) s = true.
Proof.
  revert s n. induction r as [|[c|g d] r IH]; intros s n; try done.
  destruct s as [|b s]; [done|]. cbn [match_here literal_head is_prefix].
  destruct (Ascii.eqb c b); [|done]. simpl.
  destruct (match_here r s) as [n'|] eqn:Hm; [|done]. intros _. by eapply IH.
Qed.

Lemma search_head (r : regex) (s : text) :
  contains (literal_head r) s = false → search r s = None.
Proof.
  induction s as [|c s IH]; cbn [contains search]; intros Hc;
    apply orb_false_iff in Hc as [Hp Hc].
  - destruct (match_here r []) as [n|] eqn:Hm; [|done].
    by rewrite (match_here_head r [] n Hm) in Hp.
  - destruct (match_here r (c :: s)) as [n|] eqn:Hm.
    + by rewrite (match_here_head r _ n Hm) in Hp.
    + by rewrite IH.
Qed.

(** X11: the anchors as plain text, for every rule: a content without
    [import { ] passes step 1 unchanged, one without [activeEffectInstance]
    passes steps 2 and 3 unchanged, and one without the four leading
    comments passes step 4 unchanged.  A page that has none of these and
    neither marker is left as it is, and [refactor_file] returns [False]
    without writing. *)
Theorem untouched_without_anchor_text (config : Config)
    (effect_key content : text) :
  (contains (T "import { ") content = false → step1 config content = content)
  ∧ (contains (T "activeEffectInstance") content = false →
       step2 config content = content ∧ step3 config content = content)
  ∧ literal_head <$> block_patterns
    = [ T "  // Auto-activate effect when context is ready" ++ nl
        ++ T "  useEffect(() => {";
        T "  // Handle ";
        T "  // Animation loop - tick the active effect on every frame" ++ nl
        ++ T "  useEffect(() => {";
        T "  // Auto-play effect when autoplay parameter is present" ++ nl
        ++ T "  useEffect(() => {" ]
  ∧ (Forall (fun comment => contains comment content = false)
       (literal_head <$> block_patterns) → step4 content = content)
  ∧ (contains (T "import { ") content = false →
     contains (T "activeEffectInstance") content = false →
     Forall (fun comment => contains comment content = false)
       (literal_head <$> block_patterns) →
     contains insert_marker content = false →
     contains canvas_marker content = false →
     refactor_content config effect_key content = content
     ∧ ∀ (fs : files) (filepath : Path),
         fs !! filepath = Some content →
         dict_get EFFECTS effect_key = Some config →
         refactor_file fs filepath effect_key = Returned (fs, false)).
Proof.
  assert (contains (T "import { ") content = false →
          step1 config content = content) as H1.
  { intros Hc. apply replace_absent.
    apply (contains_absent (T "import { ")); [|done].
    apply contains_spec. by exists [], (effect_name config ++ T "Effect } "
                                       ++ old_import config). }
  assert (contains (T "activeEffectInstance") content = false →
          step2 config content = content ∧ step3 config content = content)
    as H23.
  { intros Hc. split.
    - apply replace_absent.
      by apply (contains_absent (T "activeEffectInstance")).
    - apply step3_from_absent.
      assert (forallb (mentions (T "activeEffectInstance"))
                (replacements config) = true) as Hall by (by vm_compute).
      rewrite forallb_forall in Hall. apply Forall_forall.
      intros pr Hpr%list_elem_of_In%Hall. unfold mentions in Hpr.
      destruct (lits_of (compile false pr.1)) as [m|] eqn:Hm; [|done].
      apply lits_of_Some in Hm. rewrite Hm. apply found_false.
      assert (m ≠ []) as Hne by (intros ->; done).
      apply search_lits; [done|].
      by apply (contains_absent (T "activeEffectInstance")). }
  assert (Forall (fun comment => contains comment content = false)
            (literal_head <$> block_patterns) → step4 content = content)
    as H4.
  { intros Hall. apply step4_absent. apply Forall_fmap in Hall.
    eapply Forall_impl; [exact Hall|]. intros r Hr. simpl in Hr.
    by apply found_false, search_head. }
  split_and!; [done | done | by vm_compute | done |].
  intros Hi Ha Hb H5 H6.
  assert (refactor_content config effect_key content = content) as Hsame.
  { unfold refactor_content. cbn zeta.
    rewrite (H1 Hi). destruct (H23 Ha) as [-> ->]. rewrite (H4 Hb).
    by rewrite step5_absent, step6_absent. }
  split; [done|]. intros fs filepath Hfile Hkey.
  rewrite (refactor_file_present fs filepath effect_key config content
             Hfile Hkey).
  cbn zeta. by rewrite decide_True.
Qed.

Lemma untouched_without_anchor_text_witness :
  refactor_file {[ [T "pages"; T "OrbitMoviePage.tsx"] := [] ]}
    [T "pages"; T "OrbitMoviePage.tsx"] (T "orbit")
  = Returned ({[ [T "pages"; T "OrbitMoviePage.tsx"] := [] ]}, false).
Proof.
  destruct (untouched_without_anchor_text orbit_rule (T "orbit") [])
    as (_ & _ & Hheads & _ & H).
  assert (Forall (fun comment => contains comment [] = false)
            (literal_head <$> block_patterns)) as Hb
    by (rewrite Hheads, !Forall_cons; split_and!; done).
  destruct (H eq_refl eq_refl Hb eq_refl eq_refl) as [_ Hfile].
  apply Hfile; [apply lookup_singleton_eq | reflexivity].
Defined.

(** *** Step 4 only removes *)

Lemma sub_from_nil_sublist (r : regex) (k : nat) (s : text) :
  sub_from r [] k s `sublist_of` s.
Proof.
  revert k. induction s as [|c s IH]; intros k.
  - simpl. destruct k, (match_here r []); constructor.
  - destruct k as [|k]; cbn [sub_from]; [|by apply sublist_cons].
    destruct (match_here r (c :: s)) as [[|n]|]; simpl.
    + by apply sublist_skip.
    + by apply sublist_cons.
    + by apply sublist_skip.
Qed.

Lemma sublist_same_length {A : Type} (l1 l2 : list A) :
  l1 `sublist_of` l2 → length l1 = length l2 → l1 = l2.
Proof.
  induction 1 as [|x l1 l2 _ IH|x l1 l2 Hsub _]; intros Hlen; [done| |].
  - f_equal. apply IH. simpl in Hlen. lia.
  - apply sublist_length in Hsub. simpl in Hlen. lia.
Qed.

(** X12: for every content, what step 4 returns is the content with spans taken
    out: a sublist of its characters in their order, never longer, and equal
    to the content when it has the same length. *)
Theorem step4_only_removes (content : text) :
  step4 content `sublist_of` content
  ∧ length (step4 content) ≤ length content
  ∧ (length (step4 content) = length content → step4 content = content).
Proof.
  assert (step4 content `sublist_of` content) as Hsub.
  { unfold step4. cbn zeta.
    repeat (etrans; [apply sub_from_nil_sublist|]). done. }
  split_and!; [done | by apply sublist_length |].
  intros Hlen. by apply sublist_same_length.
Qed.

End RewriteFacts.

(** * Facts about the block patterns of step 4 *)

Module BlockFacts.
Import Text TextFacts Regex RegexFacts Py Refactor RefactorFacts RewriteFacts.

(** *** [find] *)

Lemma find_None (t s : text) : find t s = None ↔ contains t s = false.
Proof.
  induction s as [|c s IH]; cbn [find contains].
  - destruct (is_prefix t []); [done | done].
  - destruct (is_prefix t (c :: s)); [done|]. simpl. rewrite <- IH.
    by destruct (find t s).
Qed.

Lemma find_Some (t s : text) (k : nat) :
  find t s = Some k →
  is_prefix t (drop k s) = true ∧ k ≤ length s
  ∧ ∀ j, j < k → is_prefix t (drop j s) = false.
Proof.
  revert k. induction s as [|c s IH]; intros k; cbn [find].
  - destruct (is_prefix t []) eqn:Hp; [|done]. intros [= <-].
    split_and!; [done | done | lia].
  - destruct (is_prefix t (c :: s)) eqn:Hp.
    + intros [= <-]. split_and!; [done | simpl; lia | lia].
    + destruct (find t s) as [k'|] eqn:Hf; [|done]. intros [= <-].
      destruct (IH k' eq_refl) as (H1 & H2 & H3).
      split_and!; [done | simpl; lia |].
      intros [|j] Hj; [done|]. apply H3. lia.
Qed.

(** An occurrence further to the left is found in a longer text. *)
Lemma find_app (t x s : text) (k : nat) :
  find t s = Some k → ∃ k', find t (x ++ s) = Some k' ∧ k' ≤ length x + k.
Proof.
  intros Hf. induction x as [|c x IH]; [by exists k|].
  destruct IH as (k' & Hk' & Hle). cbn [app find].
  destruct (is_prefix t (c :: x ++ s)).
  - exists 0. split; [done | lia].
  - rewrite Hk'. exists (S k'). split; [done | simpl; lia].
Qed.

(** *** [chain_end] *)

Lemma chain_end_mono (ts : list text) (s1 s2 : text) :
  s1 `suffix_of` s2 → is_Some (chain_end ts s1) → is_Some (chain_end ts s2).
Proof.
  revert s1 s2. induction ts as [|t ts IH]; intros s1 s2 [x ->]; [done|].
  cbn [chain_end]. destruct (find t s1) as [k1|] eqn:Hf1; [|by intros []].
  destruct (find_app t x s1 k1 Hf1) as (k2 & -> & Hle).
  intros Hsome. apply fmap_is_Some in Hsome. apply fmap_is_Some.
  eapply IH; [|exact Hsome].
  exists (drop (k2 + length t) (take (length x + k1 + length t) (x ++ s1))).
  rewrite <- (take_drop (length x + k1 + length t) (x ++ s1)) at 1.
  rewrite drop_app_le by (rewrite length_take, length_app;
    apply find_Some in Hf1 as (Hp & Hk1 & _);
    apply is_prefix_spec, prefix_length in Hp;
    rewrite length_drop in Hp; lia).
  f_equal. rewrite <- Nat.add_assoc, <- drop_drop, drop_app_length. done.
Qed.

Lemma chain_end_None_drop (ts : list text) (s : text) (j : nat) :
  chain_end ts s = None → chain_end ts (drop j s) = None.
Proof.
  intros Hn. destruct (chain_end ts (drop j s)) eqn:Hd; [|done].
  assert (is_Some (chain_end ts s)) as [n' Hs]; [|congruence].
  eapply chain_end_mono; [apply suffix_drop | by rewrite Hd].
Qed.

(** *** The matcher on a chain of lazy stars *)

Lemma match_here_lits_app (m : text) (r : regex) (s : text) :
  match_here ((Lit <$> m) ++ r) s
  = if is_prefix m s
    then (fun n => length m + n) <$> match_here r (drop (length m) s)
    else None.
Proof.
  revert s. induction m as [|a m IH]; intros s.
  - cbn [fmap list_fmap app is_prefix length]. rewrite drop_0.
    by destruct (match_here r s).
  - destruct s as [|b s]; [done|]. cbn [fmap list_fmap app match_here is_prefix].
    destruct (Ascii.eqb a b); [|done]. simpl. rewrite IH.
    destruct (is_prefix m s); [|done].
    by destruct (match_here r (drop (length m) s)).
Qed.

(** [.*?] under [re.DOTALL] in front of [r] matches up to the leftmost
    match of [r]. *)
Lemma lazy_star_search (r : regex) (s : text) :
  match_here (Star false true :: r) s = (fun p => p.1 + p.2) <$> search r s.
Proof.
  induction s as [|b s IH].
  - cbn [match_here search]. by destruct (match_here r []).
  - cbn [search]. change (match_here (Star false true :: r) (b :: s))
      with (match match_here r (b :: s) with
            | Some n => Some n
            | None => S <$> match_here (Star false true :: r) s
            end).
    destruct (match_here r (b :: s)); [done|]. rewrite IH.
    by destruct (search r s) as [[k n]|].
Qed.

Lemma search_chain_step (t : text) (ts : list text) (s : text) :
  (∀ s', match_here (tail_chain ts) s' = chain_end ts s') →
  search ((Lit <$> t) ++ tail_chain ts) s
  = match find t s with
    | Some k =>
        (fun n => (k, length t + n)) <$> chain_end ts (drop (k + length t) s)
    | None => None
    end.
Proof.
  intros HR. induction s as [|c s IH].
  - cbn [search find]. rewrite match_here_lits_app, HR.
    destruct (is_prefix t []); [|done]. simpl.
    by destruct (chain_end ts (drop (length t) [])).
  - cbn [search find]. rewrite match_here_lits_app, HR.
    destruct (is_prefix t (c :: s)) eqn:Hp.
    + simpl. destruct (chain_end ts (drop (length t) (c :: s))) eqn:Hc;
        [done|].
      simpl. rewrite IH. destruct (find t s) as [k|]; [|done].
      replace (drop (k + length t) s)
        with (drop (S k) (drop (length t) (c :: s)))
        by (rewrite drop_drop;
            by replace (length t + S k) with (S (k + length t)) by lia).
      by rewrite (chain_end_None_drop ts _ (S k) Hc).
    + rewrite IH. destruct (find t s) as [k|]; [|done]. simpl.
      by destruct (chain_end ts (drop (k + length t) s)).
Qed.

Lemma match_here_tail_chain (ts : list text) (s : text) :
  match_here (tail_chain ts) s = chain_end ts s.
Proof.
  revert s. induction ts as [|t ts IH]; intros s; [done|].
  change (tail_chain (t :: ts))
    with (Star false true :: ((Lit <$> t) ++ tail_chain ts)).
  rewrite lazy_star_search, (search_chain_step t ts s IH).
  cbn [chain_end]. destruct (find t s) as [k|]; [|done].
  destruct (chain_end ts (drop (k + length t) s)); [|done].
  simpl. f_equal. lia.
Qed.

(** The match of a chain at the head of a text. *)
Lemma match_here_lazy_chain (h : text) (ts : list text) (s : text) :
  match_here (lazy_chain h ts) s
  = if is_prefix h s
    then (fun n => length h + n) <$> chain_end ts (drop (length h) s)
    else None.
Proof.
  unfold lazy_chain.
  by rewrite match_here_lits_app, match_here_tail_chain.
Qed.

(** *** Substituting a chain *)

Lemma sub_from_skip (r : regex) (repl : text) (k : nat) (s : text) :
  match_here r [] = None → sub_from r repl k s = sub r repl (drop k s).
Proof.
  intros Hnil. unfold sub. revert k.
  induction s as [|c s IH]; intros k.
  - rewrite drop_nil. simpl. rewrite Hnil. by destruct k.
  - destruct k as [|k]; [done|]. simpl. apply IH.
Qed.

Lemma sub_hit (r : regex) (repl s : text) (n : nat) :
  match_here r [] = None → match_here r s = Some (S n) →
  sub r repl s = repl ++ sub r repl (drop (S n) s).
Proof.
  intros Hnil Hm. destruct s as [|c s]; [congruence|].
  unfold sub at 1. cbn [sub_from]. rewrite Hm. f_equal.
  cbn [drop]. by apply sub_from_skip.
Qed.

Lemma sub_miss (r : regex) (repl : text) (c : ascii) (s : text) :
  match_here r (c :: s) = None →
  sub r repl (c :: s) = c :: sub r repl s.
Proof. intros Hm. unfold sub. cbn [sub_from]. by rewrite Hm. Qed.

Lemma search_None_all (r : regex) (s : text) :
  (∀ j, match_here r (drop j s) = None) → search r s = None.
Proof.
  induction s as [|c s IH]; intros Hall; cbn [search];
    pose proof (Hall 0) as H0; rewrite drop_0 in H0; rewrite H0; [done|].
  rewrite IH; [done|]. intros j. apply (Hall (S j)).
Qed.

Lemma nonempty_length (l : text) : l ≠ [] → 0 < length l.
Proof. destruct l; [done | simpl; lia]. Qed.

Lemma is_prefix_nil_r (l : text) : l ≠ [] → is_prefix l [] = false.
Proof. by destruct l. Qed.

Section chain.

Context (h : text) (ts : list text) (repl : text).
Hypothesis h_nonempty : h ≠ [].

Lemma lazy_chain_nil : match_here (lazy_chain h ts) [] = None.
Proof.
  by rewrite match_here_lazy_chain, is_prefix_nil_r.
Qed.

Lemma sub_before_head (content : text) (i : nat) :
  find h content = Some i →
  sub (lazy_chain h ts) repl content
  = take i content ++ sub (lazy_chain h ts) repl (drop i content).
Proof.
  revert content. induction i as [|i IH]; intros content Hf; [done|].
  destruct content as [|c content].
  { simpl in Hf. by rewrite is_prefix_nil_r in Hf. }
  cbn [find] in Hf. destruct (is_prefix h (c :: content)) eqn:Hp; [done|].
  destruct (find h content) as [i'|] eqn:Hf'; [|done].
  injection Hf as ->. rewrite sub_miss.
  - simpl. f_equal. by apply IH.
  - by rewrite match_here_lazy_chain, Hp.
Qed.

Lemma sub_chain_fails (content : text) :
  chain_end ts (drop (length h) content) = None →
  sub (lazy_chain h ts) repl content = content.
Proof.
  intros Hc. apply sub_no_match, search_None_all. intros j.
  rewrite match_here_lazy_chain.
  destruct (is_prefix h (drop j content)); [|done].
  rewrite drop_drop, Nat.add_comm, <- drop_drop.
  by rewrite (chain_end_None_drop ts _ j Hc).
Qed.

Lemma sub_lazy_chain (content : text) :
  sub (lazy_chain h ts) repl content
  = match find h content with
    | None => content
    | Some i =>
        match chain_end ts (drop (i + length h) content) with
        | None => content
        | Some n =>
            take i content ++ repl
            ++ sub (lazy_chain h ts) repl
                 (drop (i + length h + n) content)
        end
    end.
Proof.
  destruct (find h content) as [i|] eqn:Hf.
  - rewrite (sub_before_head content i Hf).
    apply find_Some in Hf as (Hp & _ & _).
    destruct (chain_end ts (drop (i + length h) content)) as [n|] eqn:Hc.
    + f_equal.
      assert (match_here (lazy_chain h ts) (drop i content)
              = Some (S (length h - 1 + n))) as Hm.
      { rewrite match_here_lazy_chain, Hp, drop_drop, Hc. simpl.
        f_equal. pose proof (nonempty_length h h_nonempty). lia. }
      rewrite (sub_hit _ _ _ _ lazy_chain_nil Hm). f_equal.
      rewrite drop_drop. pose proof (nonempty_length h h_nonempty).
      by replace (i + S (length h - 1 + n)) with (i + length h + n) by lia.
    + rewrite sub_chain_fails by (by rewrite drop_drop).
      by rewrite take_drop.
  - apply sub_no_match, search_None_all. intros j.
    rewrite match_here_lazy_chain.
    destruct (is_prefix h (drop j content)) eqn:Hp; [|done].
    apply find_None in Hf.
    assert (contains h content = true) as Hc; [|congruence].
    apply contains_spec. apply is_prefix_spec in Hp as [rest Hrest].
    exists (take j content), rest.
    by rewrite <- Hrest, take_drop.
Qed.
End chain.

(** *** The three blocks delimited lazily *)

(** X13: the auto-activate, animation-loop and auto-play patterns are a leading
    text (the comment line and the [useEffect(() => {] line) followed by
    closing texts matched lazily.  Substituting one of them looks for the
    first occurrence of the leading text.  When the closing texts follow it,
    each at its first occurrence after the one before, the span from the
    comment to the end of the last closing text is removed and the rest of
    the content is treated in the same way.  When the leading text is absent
    or the closing texts do not follow it, the content is returned
    unchanged, even if they would follow a later copy of the leading
    text. *)
Theorem lazy_blocks_removed (r : regex) (h : text) (ts : list text)
    (content : text) :
  (r, h, ts) ∈ [
    (old_auto_activate_pattern,
     T "  // Auto-activate effect when context is ready" ++ nl
     ++ T "  useEffect(() => {",
     [nl ++ T "  }, [effectContext, activeEffectInstance, movie]);"]);
    (old_animation_loop_pattern,
     T "  // Animation loop - tick the active effect on every frame" ++ nl
     ++ T "  useEffect(() => {",
     [nl ++ T "  }, ["; T "]);"]);
    (old_autoplay_pattern,
     T "  // Auto-play effect when autoplay parameter is present" ++ nl
     ++ T "  useEffect(() => {",
     [nl ++ T "  }, ["; T "]);"]) ] →
  r = lazy_chain h ts
  ∧ sub r [] content
    = match find h content with
      | None => content
      | Some i =>
          match chain_end ts (drop (i + length h) content) with
          | None => content
          | Some n =>
              take i content ++ sub r [] (drop (i + length h + n) content)
          end
      end.
Proof.
  intros Hin. rewrite !elem_of_cons in Hin.
  assert (r = lazy_chain h ts ∧ h ≠ []) as [-> Hne].
  { destruct Hin as [Hin | [Hin | [Hin | Hin]]];
      [| | | by apply elem_of_nil in Hin];
      injection Hin as -> -> ->; (split; [by vm_compute | done]). }
  split; [done|]. by rewrite (sub_lazy_chain h ts [] Hne content) at 1.
Qed.

Lemma lazy_blocks_removed_witness :
  let block :=
    T "  // Animation loop - tick the active effect on every frame" ++ nl
    ++ T "  useEffect(() => {" ++ nl ++ T "    tick();" ++ nl
    ++ T "  }, [tick]);" in
  sub old_animation_loop_pattern []
    (T "before" ++ nl ++ block ++ nl ++ T "after")
  = T "before" ++ nl ++ nl ++ T "after".
Proof.
  intros block.
  destruct (lazy_blocks_removed old_animation_loop_pattern
              (T "  // Animation loop - tick the active effect on every frame"
               ++ nl ++ T "  useEffect(() => {")
              [nl ++ T "  }, ["; T "]);"]
              (T "before" ++ nl ++ block ++ nl ++ T "after")) as [_ H].
  - apply list_elem_of_further, list_elem_of_here.
  - rewrite H. by vm_compute.
Defined.

(** *** The handler block, delimited greedily *)

(** [.*] under [re.DOTALL] in front of [r] runs to the last position at
    which [r] matches. *)
Lemma greedy_star_last (r : regex) (s : text) :
  match match_here (Star true true :: r) s with
  | Some m =>
      ∃ k n, m = k + n ∧ match_here r (drop k s) = Some n
             ∧ ∀ j, k < j → match_here r (drop j s) = match_here r []
                            ∧ (j ≤ length s → match_here r (drop j s) = None)
  | None => ∀ j, match_here r (drop j s) = None
  end.
Proof.
  induction s as [|b s IH].
  - cbn [match_here]. destruct (match_here r []) as [m|] eqn:Hm.
    + exists 0, m. split_and!; [done | done |].
      intros j Hj. rewrite drop_nil. split; [done | simpl; lia].
    + intros j. by rewrite drop_nil.
  - change (match_here (Star true true :: r) (b :: s))
      with (match match_here (Star true true :: r) s with
            | Some n => Some (S n)
            | None => match_here r (b :: s)
            end).
    destruct (match_here (Star true true :: r) s) as [m|] eqn:Hs.
    + destruct IH as (k & n & -> & Hk & Hlater).
      exists (S k), n. split_and!; [done | done |].
      intros [|j] Hj; [lia|]. destruct (Hlater j ltac:(lia)) as [H1 H2].
      split; [done|]. simpl. intros Hle. apply H2. lia.
    + destruct (match_here r (b :: s)) as [m|] eqn:Hm.
      * exists 0, m. split_and!; [done | done |].
        intros [|j] Hj; [lia|]. simpl. rewrite (IH j).
        split; [|done]. specialize (IH (length s)).
        by rewrite drop_all in IH.
      * intros [|j]; [done | apply IH].
Qed.

(** X14: a match of the handler pattern starts with [  // Handle ]; its [.*]
    runs to the last [ activation\n  const handleActivateEffect = ] after
    which a closing [\n  };] still follows, and the match ends with the
    first such closing after it.  With several handler definitions on a
    page the span therefore reaches from the first comment to the end of the
    last definition.  There is no match when the text does not start with
    the comment or no definition with a closing follows. *)
Theorem handler_block_greedy (s : text) :
  let h := T "  // Handle " in
  let t1 := T " activation" ++ nl ++ T "  const handleActivateEffect = " in
  let t2 := nl ++ T "  };" in
  old_activate_handler_pattern
  = (Lit <$> h) ++ Star true true :: lazy_chain t1 [t2]
  ∧ match match_here old_activate_handler_pattern s with
    | Some n =>
        is_prefix h s = true
        ∧ ∃ k e,
            n = length h + k + length t1 + e + length t2
            ∧ is_prefix t1 (drop (length h + k) s) = true
            ∧ find t2 (drop (length h + k + length t1) s) = Some e
            ∧ ∀ j, k < j →
                is_prefix t1 (drop (length h + j) s) = true →
                contains t2 (drop (length h + j + length t1) s) = false
    | None =>
        is_prefix h s = false
        ∨ ∀ j, is_prefix t1 (drop (length h + j) s) = true →
               contains t2 (drop (length h + j + length t1) s) = false
    end.
Proof.
  intros h t1 t2.
  assert (old_activate_handler_pattern
          = (Lit <$> h) ++ Star true true :: lazy_chain t1 [t2]) as Hshape
    by (by vm_compute).
  split; [done|]. rewrite Hshape, match_here_lits_app.
  assert (t1 ≠ []) as Ht1 by done. clear Hshape. clearbody h t1 t2.
  assert (∀ x, match_here (lazy_chain t1 [t2]) x
               = if is_prefix t1 x
                 then match find t2 (drop (length t1) x) with
                      | Some e => Some (length t1 + (e + length t2))
                      | None => None
                      end
                 else None) as HR.
  { intros x. rewrite match_here_lazy_chain. destruct (is_prefix t1 x); [|done].
    cbn [chain_end]. destruct (find t2 (drop (length t1) x)); [|done].
    simpl. do 2 f_equal. lia. }
  assert (∀ x, match_here (lazy_chain t1 [t2]) x = None →
               is_prefix t1 x = true →
               contains t2 (drop (length t1) x) = false) as Hnone.
  { intros x Hx Hp. rewrite HR, Hp in Hx. apply find_None.
    by destruct (find t2 (drop (length t1) x)). }
  destruct (is_prefix h s) eqn:Hp; [|by left].
  pose proof (greedy_star_last (lazy_chain t1 [t2]) (drop (length h) s)) as Hg.
  destruct (match_here (Star true true :: lazy_chain t1 [t2])
              (drop (length h) s)) as [m|].
  - destruct Hg as (k & n & -> & Hk & Hlater). cbn [fmap option_fmap option_map].
    split; [done|]. rewrite drop_drop, HR in Hk.
    destruct (is_prefix t1 (drop (length h + k) s)) eqn:Hp1; [|done].
    rewrite drop_drop in Hk.
    destruct (find t2 (drop (length h + k + length t1) s)) as [e|] eqn:Hf;
      [|done].
    injection Hk as <-. exists k, e. split_and!; [lia | done | done |].
    intros j Hj Hpj. destruct (Hlater j Hj) as [Hnil _].
    rewrite drop_drop in Hnil.
    rewrite <- drop_drop. apply Hnone; [|done].
    rewrite Hnil. by rewrite match_here_lazy_chain, is_prefix_nil_r.
  - right. intros j Hpj. rewrite <- drop_drop. apply Hnone; [|done].
    rewrite <- drop_drop. apply Hg.
Qed.

End BlockFacts.

(** * The pipeline as a whole *)

Module PipelineFacts.
Import Text TextFacts Regex RegexFacts Py Refactor RefactorFacts RefactorMore
  RewriteFacts.

(** *** Counting across a sequence of replacements *)

Lemma replace_inert (q m r s : text) :
  inert q m r = true → occs q (replace m r s) = occs q s.
Proof.
  unfold inert. rewrite !andb_true_iff, !Nat.eqb_eq. intros [[Hsep Hqm] Hqr].
  pose proof (occs_replace_b q m r s Hsep) as H. rewrite Hqm, Hqr in H. lia.
Qed.

Lemma replace_all_cons (mr : text * text) (rs : list (text * text)) (s : text) :
  replace_all (mr :: rs) s = replace_all rs (replace mr.1 mr.2 s).
Proof. done. Qed.

Lemma replace_all_app (rs1 rs2 : list (text * text)) (s : text) :
  replace_all (rs1 ++ rs2) s = replace_all rs2 (replace_all rs1 s).
Proof. unfold replace_all. by rewrite foldl_app. Qed.

Lemma replace_all_inert (q : text) (rs : list (text * text)) (s : text) :
  forallb (fun mr => inert q mr.1 mr.2) rs = true →
  occs q (replace_all rs s) = occs q s.
Proof.
  revert s. induction rs as [|mr rs IH]; intros s; [done|].
  cbn [forallb]. rewrite andb_true_iff. intros [H1 H2].
  rewrite replace_all_cons, IH by done. by apply replace_inert.
Qed.

Lemma replace_kept (q m r s : text) :
  kept q m = true → occs q s ≤ occs q (replace m r s).
Proof.
  unfold kept.
  rewrite !andb_true_iff, !negb_true_iff, !bool_decide_eq_false, Nat.eqb_eq.
  intros ((((Hq & Hm) & Hmm) & Hqm) & Hnone).
  destruct (replace_join m s Hm (apartb_sound _ _ Hmm)) as (ps & Hlen & Hs & Hr).
  assert (ps ≠ []) by (by destruct ps).
  rewrite Hr. rewrite Hs at 1.
  rewrite occs_join by (done || by apply apartb_sound).
  rewrite Hnone, Nat.mul_0_r, Nat.add_0_r. by apply occs_join_ge.
Qed.

Lemma replace_all_kept (q : text) (rs : list (text * text)) (s : text) :
  forallb (fun mr => kept q mr.1) rs = true →
  occs q s ≤ occs q (replace_all rs s).
Proof.
  revert s. induction rs as [|mr rs IH]; intros s; [done|].
  cbn [forallb]. rewrite andb_true_iff. intros [H1 H2].
  rewrite replace_all_cons. etrans; [|by apply IH]. by apply replace_kept.
Qed.

Lemma replace_forms_none (q m r s : text) :
  forms_none q m r = true → occs q (replace m r s) ≤ occs q s.
Proof.
  unfold forms_none.
  rewrite !andb_true_iff, !negb_true_iff, !bool_decide_eq_false, Nat.eqb_eq.
  intros ((((Hq & Hm) & Hmm) & Hqr) & Hnone).
  pose proof (occs_replace_le q m r s Hq Hm (apartb_sound _ _ Hmm)
                (apartb_sound _ _ Hqr)) as H.
  rewrite Hnone in H. lia.
Qed.

Lemma replace_all_forms_none (q : text) (rs : list (text * text)) (s : text) :
  forallb (fun mr => forms_none q mr.1 mr.2) rs = true →
  occs q (replace_all rs s) ≤ occs q s.
Proof.
  revert s. induction rs as [|mr rs IH]; intros s; [done|].
  cbn [forallb]. rewrite andb_true_iff. intros [H1 H2].
  rewrite replace_all_cons. etrans; [by apply IH|]. by apply replace_forms_none.
Qed.

Lemma gain_inert (q m r : text) (rs : list (text * text)) (s : text) :
  forallb (fun mr' => (occs q mr'.2 =? 0) || inert mr'.1 m r) rs = true →
  gain q rs (replace m r s) = gain q rs s.
Proof.
  induction rs as [|mr rs IH]; [done|].
  cbn [forallb gain]. rewrite andb_true_iff, orb_true_iff, Nat.eqb_eq.
  intros [[Hz | Hin] Hrs]; rewrite IH by done.
  - by rewrite Hz, !Nat.mul_0_r.
  - by rewrite replace_inert.
Qed.

Lemma replace_all_gain (q : text) (rs : list (text * text)) (s : text) :
  countable q rs = true →
  occs q (replace_all rs s) = occs q s + gain q rs s.
Proof.
  revert s. induction rs as [|mr rs IH]; intros s; [simpl; lia|].
  cbn [countable gain]. rewrite !andb_true_iff, Nat.eqb_eq.
  intros [[[Hsep Hqm] Hin] Hrs].
  rewrite replace_all_cons, IH, gain_inert by done.
  pose proof (occs_replace_b q mr.1 mr.2 s Hsep) as H.
  rewrite Hqm, Nat.mul_0_r in H. lia.
Qed.

(** The pieces [replace_join] cuts a text into hold no [m], and so nothing
    that holds [m]. *)
Lemma sum_list_zero (l : list nat) : sum_list l = 0 → Forall (fun n => n = 0) l.
Proof.
  induction l as [|n l IH]; [constructor|]. simpl. intros H.
  constructor; [lia | apply IH; lia].
Qed.

Lemma sum_list_all_zero (l : list nat) : Forall (fun n => n = 0) l → sum_list l = 0.
Proof. induction 1 as [|n l -> _ IH]; [done | done]. Qed.

Lemma pieces_free (m q : text) (ps : list text) :
  m ≠ [] → apart m m → contains m q = true →
  length ps = S (occs m (join m ps)) →
  sum_list (occs q <$> ps) = 0.
Proof.
  intros Hm Hmm Hq Hlen.
  assert (ps ≠ []) as Hps by (by destruct ps).
  pose proof (occs_join m m ps Hm Hmm Hps) as Hj.
  rewrite occs_self in Hj by done.
  assert (sum_list (occs m <$> ps) = 0) as Hz by lia.
  apply sum_list_all_zero. apply sum_list_zero in Hz.
  rewrite Forall_fmap in Hz |- *. eapply Forall_impl; [exact Hz|].
  intros p Hp. cbn in *.
  assert (q ≠ []) as Hqne.
  { intros ->. destruct m; [done|]. by cbn in Hq. }
  apply occs_zero; [done|]. apply occs_zero in Hp; [|done].
  by eapply contains_absent.
Qed.

(** Replacing every [m] by a text [r] that holds [m] and cannot overlap
    itself: [r] then occurs once for every occurrence [m] had. *)
Lemma occs_replace_holding (m r s : text) :
  m ≠ [] → apart m m → apart r r → contains m r = true →
  occs r (replace m r s) = occs m s.
Proof.
  intros Hm Hmm Hrr Hin.
  destruct (replace_join m s Hm Hmm) as (ps & Hlen & Hs & Hr).
  assert (ps ≠ []) by (by destruct ps).
  assert (r ≠ []) as Hrne.
  { intros ->. destruct m; [done|]. by cbn in Hin. }
  rewrite Hr, occs_join, occs_self by done.
  rewrite (pieces_free m r ps) by (done || by rewrite <- Hs).
  rewrite Hlen. simpl. lia.
Qed.

(** *** The steps as replacements *)

Lemma step3_from_replace_all (rs : list (text * text)) (content : text) :
  forallb (fun pr => match lits_of (compile false pr.1) with
                     | Some (_ :: _) => true
                     | _ => false
                     end) rs = true →
  step3_from rs content
  = replace_all ((fun pr => (literal pr, pr.2)) <$> rs) content.
Proof.
  unfold step3_from. revert content.
  induction rs as [|pr rs IH]; intros content; [done|].
  cbn [forallb]. rewrite andb_true_iff. intros [Hpr Hrs].
  rewrite fmap_cons, replace_all_cons. cbn [foldl]. rewrite IH by done.
  f_equal. unfold literal. cbn [fst snd].
  destruct (lits_of (compile false pr.1)) as [[|c m]|] eqn:Hm; try done.
  apply lits_of_Some in Hm as ->. by rewrite sub_lits.
Qed.

Lemma steps_before (config : Config) (effect_key content : text) :
  dict_get EFFECTS effect_key = Some config →
  step3 config (step2 config (step1 config content))
  = replace_all (rewrites_before config) content.
Proof.
  intros Hkey. unfold rewrites_before. rewrite !replace_all_cons. cbn [fst snd].
  unfold step3. rewrite step3_from_replace_all; [done|].
  destruct (EFFECTS_cases _ _ Hkey) as [H | [H | [H | H]]];
    injection H as -> ->; vm_compute; reflexivity.
Qed.

Lemma steps_after (config : Config) (effect_key content : text) :
  step6 config effect_key (step5 config effect_key content)
  = replace_all (rewrites_after config effect_key) content.
Proof. by rewrite step5_replace, step6_replace. Qed.

Lemma refactor_content_steps (config : Config) (effect_key content : text) :
  refactor_content config effect_key content
  = step6 config effect_key
      (step5 config effect_key
         (step4 (step3 config (step2 config (step1 config content))))).
Proof. done. Qed.



Lemma rewrites_before_tail (config : Config) (content : text) :
  replace_all (rewrites_before config) content
  = replace_all (tail (rewrites_before config)) (step1 config content).
Proof. done. Qed.

Lemma refactor_content_replace_all (config : Config) (effect_key content : text) :
  dict_get EFFECTS effect_key = Some config →
  refactor_content config effect_key content
  = replace_all (rewrites_after config effect_key)
      (step4 (replace_all (tail (rewrites_before config))
                (step1 config content))).
Proof.
  intros Hkey.
  by rewrite refactor_content_steps, steps_after, (steps_before _ effect_key),
    rewrites_before_tail.
Qed.

(** A document without the beginnings of the comments of the block patterns
    reaches step 4 without them, and step 4 removes nothing. *)
Lemma step4_without_blocks (effect_key : text) (config : Config)
    (content : text) :
  dict_get EFFECTS effect_key = Some config →
  blocks_absent content = true →
  step4 (step3 config (step2 config (step1 config content)))
  = step3 config (step2 config (step1 config content)).
Proof.
  intros Hkey Habs.
  assert (forallb (fun comment =>
            negb (bool_decide (comment = []))
            && forallb (fun mr => forms_none comment mr.1 mr.2)
                 (rewrites_before config)) block_comments = true) as Hnone.
  { destruct (EFFECTS_cases _ _ Hkey) as [H | [H | [H | H]]];
      injection H as -> ->; by vm_compute. }
  rewrite (steps_before _ effect_key) by done.
  assert (∀ comment r,
            In comment block_comments →
            contains comment (literal_head r) = true →
            found r (replace_all (rewrites_before config) content) = false)
    as Hone.
  { intros comment r Hmem Hhead.
    unfold blocks_absent in Habs. rewrite forallb_forall in Habs, Hnone.
    specialize (Habs comment Hmem). specialize (Hnone comment Hmem).
    apply andb_true_iff in Hnone as [Hne Hnone].
    apply negb_true_iff, bool_decide_eq_false in Hne.
    apply negb_true_iff in Habs.
    apply found_false, search_head.
    apply (contains_absent comment); [done|].
    apply occs_zero; [done|]. apply occs_zero in Habs; [|done].
    pose proof (replace_all_forms_none comment _ content Hnone). lia. }
  apply step4_absent. unfold block_patterns. rewrite !Forall_cons.
  split_and!; [| | | | apply Forall_nil_2].
  - apply (Hone (T "// Auto-activate effect when"));
      [simpl; tauto | by vm_compute].
  - apply (Hone (T "// Hand")); [simpl; tauto | by vm_compute].
  - apply (Hone (T "// Animation loop"));
      [simpl; tauto | by vm_compute].
  - apply (Hone (T "// Auto-play effect when"));
      [simpl; tauto | by vm_compute].
Qed.

(** *** The import swap in the transformed content *)

(** C2 (as amended): for every rule key and every document that holds the
    legacy import line of its rule, the content after the rewriting steps 1
    to 3 holds the rule's new-import block, and the transformed content
    holds it whenever it is still there after the block removal of step 4;
    steps 5 and 6 never remove it.  The legacy line occurs after steps 1 to
    3 once per replaced occurrence for every occurrence of it inside the
    new block itself: none for [turntable], one for [reveal], [orbit] and
    [explosion], whose block holds the line in its commented-out copy; and
    steps 5 and 6 leave that number as step 4 returns it.  So when step 4
    removes nothing, as it does for every document without the comments its
    block patterns start with, the transformed content holds the new block,
    and holds the legacy line for every key but [turntable]. *)
Theorem import_swapped (effect_key : text) (config : Config) (content : text) :
  dict_get EFFECTS effect_key = Some config →
  contains (old_import_line config) content = true →
  let rewritten := step3 config (step2 config (step1 config content)) in
  let final := refactor_content config effect_key content in
  contains (new_import config) rewritten = true
  ∧ (contains (new_import config) (step4 rewritten) = true →
       contains (new_import config) final = true)
  ∧ occs (old_import_line config) rewritten
    = occs (old_import_line config) content
      * occs (old_import_line config) (new_import config)
  ∧ occs (old_import_line config) final
    = occs (old_import_line config) (step4 rewritten)
  ∧ occs (old_import_line config) (new_import config)
    = (if decide (effect_key = T "turntable") then 0 else 1)
  ∧ (blocks_absent content = true → step4 rewritten = rewritten)
  ∧ (step4 rewritten = rewritten →
       contains (new_import config) final = true
       ∧ (effect_key = T "turntable" →
            contains (old_import_line config) final = false)
       ∧ (effect_key ≠ T "turntable" →
            contains (old_import_line config) final = true)).
Proof.
  intros Hkey Hc rewritten final.
  assert (negb (bool_decide (new_import config = [])) = true
          ∧ negb (bool_decide (old_import_line config = [])) = true
          ∧ forallb (fun mr => kept (new_import config) mr.1)
              (tail (rewrites_before config)) = true
          ∧ forallb (fun mr => kept (new_import config) mr.1)
              (rewrites_after config effect_key) = true
          ∧ forallb (fun mr => inert (old_import_line config) mr.1 mr.2)
              (tail (rewrites_before config)) = true
          ∧ forallb (fun mr => inert (old_import_line config) mr.1 mr.2)
              (rewrites_after config effect_key) = true)
    as (Hnew & Hold & Hnb & Hna & Hob & Hoa).
  { destruct (EFFECTS_cases _ _ Hkey) as [H | [H | [H | H]]];
      injection H as -> ->; by vm_compute. }
  apply negb_true_iff, bool_decide_eq_false in Hnew, Hold.
  destruct (step1_counts effect_key config content Hkey Hc)
    as (Hc1 & Hn1 & Hin & _).
  assert (rewritten
          = replace_all (tail (rewrites_before config)) (step1 config content))
    as Hrw.
  { unfold rewritten.
    by rewrite (steps_before _ effect_key), rewrites_before_tail. }
  assert (final = replace_all (rewrites_after config effect_key)
                    (step4 rewritten)) as Hfin.
  { unfold final. rewrite Hrw. by apply refactor_content_replace_all. }
  assert (contains (new_import config) rewritten = true) as Hcr.
  { apply occs_pos; [done|]. apply occs_pos in Hc1; [|done].
    pose proof (replace_all_kept _ _ (step1 config content) Hnb) as Hle.
    rewrite <- Hrw in Hle. lia. }
  assert (contains (new_import config) (step4 rewritten) = true →
          contains (new_import config) final = true) as Hcf.
  { intros H4. apply occs_pos; [done|]. apply occs_pos in H4; [|done].
    pose proof (replace_all_kept _ _ (step4 rewritten) Hna) as Hle.
    rewrite <- Hfin in Hle. lia. }
  assert (occs (old_import_line config) rewritten
          = occs (old_import_line config) content
            * occs (old_import_line config) (new_import config)) as Hor.
  { rewrite Hrw, replace_all_inert by done. exact Hn1. }
  assert (occs (old_import_line config) final
          = occs (old_import_line config) (step4 rewritten)) as Hof.
  { rewrite Hfin. by apply replace_all_inert. }
  split_and!; [exact Hcr | exact Hcf | exact Hor | exact Hof | exact Hin
               | exact (step4_without_blocks effect_key config content Hkey) |].
  intros H4. rewrite H4 in Hcf, Hof. apply occs_pos in Hc as Hpos; [|done].
  split_and!.
  - by apply Hcf.
  - intros Hk. apply occs_zero; [done|]. rewrite Hof, Hor, Hin.
    rewrite decide_True by done. lia.
  - intros Hk. apply occs_pos; [done|]. rewrite Hof, Hor, Hin.
    rewrite decide_False by done. lia.
Qed.

Lemma import_swapped_witness :
  let content := T "import React from 'react';" ++ nl
                 ++ old_import_line turntable_rule ++ nl in
  let final := refactor_content turntable_rule (T "turntable") content in
  contains (new_import turntable_rule) final = true
  ∧ contains (old_import_line turntable_rule) final = false.
Proof.
  intros content final.
  destruct (import_swapped (T "turntable") turntable_rule content)
    as (_ & _ & _ & _ & _ & Hblocks & H).
  - reflexivity.
  - by vm_compute.
  - destruct H as (Hnew & Hgone & _); [apply Hblocks; by vm_compute|].
    split; [exact Hnew | by apply Hgone].
Defined.

(** C2 (as stated) fails in three ways.  For [reveal] the page made of the
    legacy import line alone still holds that line in the transformed
    content, inside the commented-out copy of the new block.  For
    [turntable], a page whose legacy import line stands inside an auto-play
    block holds the new block after step 1, but step 4 removes the block and
    the transformed content is empty; and a page in which such a block
    stands in the middle of a second import line holds the legacy line in
    the transformed content, formed by joining what was around the block. *)
Lemma import_swap_fails :
  let inside :=
    T "  // Auto-play effect when autoplay parameter is present" ++ nl
    ++ T "  useEffect(() => {" ++ nl ++ old_import_line turntable_rule ++ nl
    ++ T "  }, [autoplay]);" in
  let around :=
    T "import { Turntable" ++ inside
    ++ T "Effect } from '../../effects/turntable/TurnTableEffect';" in
  dict_get EFFECTS (T "reveal") = Some reveal_rule
  ∧ dict_get EFFECTS (T "turntable") = Some turntable_rule
  ∧ contains (old_import_line reveal_rule) (old_import_line reveal_rule) = true
  ∧ contains (old_import_line reveal_rule)
      (refactor_content reveal_rule (T "reveal") (old_import_line reveal_rule))
    = true
  ∧ contains (old_import_line turntable_rule) inside = true
  ∧ contains (new_import turntable_rule) (step1 turntable_rule inside) = true
  ∧ refactor_content turntable_rule (T "turntable") inside = []
  ∧ contains (new_import turntable_rule)
      (refactor_content turntable_rule (T "turntable") inside) = false
  ∧ contains (old_import_line turntable_rule) around = true
  ∧ refactor_content turntable_rule (T "turntable") around
    = old_import_line turntable_rule
  ∧ contains (old_import_line turntable_rule)
      (refactor_content turntable_rule (T "turntable") around) = true.
Proof. by vm_compute. Qed.

(** *** The optional-chaining accesses in the transformed content *)

Lemma gain_zip (q : text) (rs : list (text * text)) (s : text) :
  gain q rs s
  = sum_list (zip_with (fun m w => occs m s * w) rs.*1 (occs q <$> rs.*2)).
Proof. induction rs as [|mr rs IH]; [done|]. cbn. by rewrite IH. Qed.

Lemma rewritten_gain (effect_key : text) (config : Config) (s : text) :
  dict_get EFFECTS effect_key = Some config →
  gain (rewritten_access config) (tail (rewrites_before config)) s
  = occs legacy_access s + method_calls s.
Proof.
  intros Hkey. rewrite gain_zip.
  assert ((tail (rewrites_before config)).*1
          = [ old_state;
              T "activeEffectInstance.play()"; T "activeEffectInstance.pause()";
              T "activeEffectInstance.stop()"; T "activeEffectInstance.dispose()";
              T "activeEffectInstance.getConfig()";
              T "activeEffectInstance.setRecording(";
              T "activeEffectInstance.setConfig(";
              T "if (activeEffectInstance)"; T "if (!activeEffectInstance)";
              T "activeEffectInstance && ("; T "{activeEffectInstance &&";
              legacy_access ]
          ∧ occs (rewritten_access config)
              <$> (tail (rewrites_before config)).*2
            = [0; 1; 1; 1; 1; 1; 1; 1; 0; 0; 0; 0; 1]) as [-> ->].
  { destruct (EFFECTS_cases _ _ Hkey) as [H | [H | [H | H]]];
      injection H as -> ->; split; vm_compute; reflexivity. }
  unfold method_calls, method_call_forms.
  cbn [zip_with sum_list sum_list_with fmap list_fmap]. unfold id. lia.
Qed.

(** C6 (as amended): for every rule and every document with n occurrences
    of [activeEffectInstance?.], the content after the rewriting steps 1 to 3
    has no occurrence of it, and [<ref_name>.current?.] occurs there n times,
    plus once for every call of the seven methods step 3 rewrites to the
    same form, plus the occurrences present after the import step, which are
    those of the document (only for [reveal], and only where step 1
    replaces an import line, the new-import block, which ends in the letter
    the reference name starts with, can complete one more).
    Steps 5 and 6 change neither number, so the transformed content has what
    step 4 leaves; when step 4 removes nothing, as it does for every document
    without the comments its block patterns start with, that is no legacy
    access and the number above: exactly three for a document with three
    legacy accesses, no such call and no rewritten form. *)
Theorem optional_chaining_rewritten (effect_key : text) (config : Config)
    (content : text) :
  dict_get EFFECTS effect_key = Some config →
  let rewritten := step3 config (step2 config (step1 config content)) in
  let final := refactor_content config effect_key content in
  occs legacy_access rewritten = 0
  ∧ occs (rewritten_access config) rewritten
    = occs legacy_access content + method_calls content
      + occs (rewritten_access config) (step1 config content)
  ∧ occs (rewritten_access config) content
    ≤ occs (rewritten_access config) (step1 config content)
  ∧ (effect_key ≠ T "reveal"
     ∨ contains (old_import_line config) content = false →
       occs (rewritten_access config) (step1 config content)
       = occs (rewritten_access config) content)
  ∧ occs legacy_access final = occs legacy_access (step4 rewritten)
  ∧ occs (rewritten_access config) final
    = occs (rewritten_access config) (step4 rewritten)
  ∧ (blocks_absent content = true → step4 rewritten = rewritten)
  ∧ (step4 rewritten = rewritten →
       occs legacy_access final = 0
       ∧ occs (rewritten_access config) final
         = occs legacy_access content + method_calls content
           + occs (rewritten_access config) (step1 config content)).
Proof.
  intros Hkey rewritten final.
  assert (countable (rewritten_access config) (tail (rewrites_before config))
          = true
          ∧ forallb (fun f => inert f (old_import_line config)
                                (new_import config))
              (legacy_access :: method_call_forms) = true
          ∧ kept (rewritten_access config) (old_import_line config) = true
          ∧ inert (rewritten_access config) (old_import_line config)
              (new_import config)
            || bool_decide (effect_key = T "reveal") = true
          ∧ forallb (fun mr => inert legacy_access mr.1 mr.2)
              (rewrites_after config effect_key) = true
          ∧ forallb (fun mr => inert (rewritten_access config) mr.1 mr.2)
              (rewrites_after config effect_key) = true)
    as (Hcount & Hforms & Hkept & Hin1 & Hla & Hqa).
  { destruct (EFFECTS_cases _ _ Hkey) as [H | [H | [H | H]]];
      injection H as -> ->; by vm_compute. }
  assert (rewritten
          = replace_all (tail (rewrites_before config)) (step1 config content))
    as Hrw.
  { unfold rewritten.
    by rewrite (steps_before _ effect_key), rewrites_before_tail. }
  assert (final = replace_all (rewrites_after config effect_key)
                    (step4 rewritten)) as Hfin.
  { unfold final. rewrite Hrw. by apply refactor_content_replace_all. }
  destruct (step3_last_rewrite effect_key config
              (step2 config (step1 config content)) Hkey)
    as (_ & _ & Hnone & _).
  fold rewritten in Hnone.
  assert (occs (rewritten_access config) rewritten
          = occs legacy_access content + method_calls content
            + occs (rewritten_access config) (step1 config content)) as Hq.
  { rewrite Hrw, replace_all_gain, (rewritten_gain effect_key) by done.
    cbn [forallb] in Hforms. apply andb_true_iff in Hforms as [Hl Hm].
    unfold step1. rewrite (replace_inert legacy_access) by done.
    assert (method_calls (replace (old_import_line config) (new_import config)
                            content) = method_calls content) as ->; [|lia].
    unfold method_calls. f_equal. apply list_fmap_ext.
    intros i form Hform. apply replace_inert.
    rewrite forallb_forall in Hm. apply Hm.
    apply list_elem_of_In. by eapply list_elem_of_lookup_2. }
  assert (occs legacy_access final = occs legacy_access (step4 rewritten))
    as Hlf by (rewrite Hfin; by apply replace_all_inert).
  assert (occs (rewritten_access config) final
          = occs (rewritten_access config) (step4 rewritten))
    as Hqf by (rewrite Hfin; by apply replace_all_inert).
  split_and!; [exact Hnone | exact Hq | | | exact Hlf | exact Hqf
               | exact (step4_without_blocks effect_key config content Hkey) |].
  - by apply replace_kept.
  - intros [Hk | Habs].
    + apply orb_true_iff in Hin1 as [Hin1 | Hr].
      * by apply replace_inert.
      * by apply bool_decide_eq_true in Hr.
    + unfold step1. by rewrite replace_absent.
  - intros H4. rewrite H4 in Hlf, Hqf. by rewrite Hlf, Hqf.
Qed.

Lemma optional_chaining_rewritten_witness :
  let content :=
    T "activeEffectInstance?.a(); activeEffectInstance?.b(); x = activeEffectInstance?.c;" in
  let final := refactor_content orbit_rule (T "orbit") content in
  occs legacy_access content = 3
  ∧ occs legacy_access final = 0
  ∧ occs (rewritten_access orbit_rule) final = 3.
Proof.
  intros content final.
  destruct (optional_chaining_rewritten (T "orbit") orbit_rule content)
    as (_ & _ & _ & _ & _ & _ & Hblocks & H); [reflexivity|].
  destruct H as [Hnone Hthree]; [apply Hblocks; by vm_compute|].
  split_and!; [by vm_compute | exact Hnone |].
  unfold final. rewrite Hthree. by vm_compute.
Defined.

(** C6 (as stated) fails in four ways, each on a page with exactly three
    occurrences of [activeEffectInstance?.].  With one call of [play], the
    transformed content has four occurrences of the rewritten form, the call
    being rewritten to the same form.  With two of the accesses inside an
    auto-activate block, step 3 rewrites all three and step 4 removes the
    block: one rewritten form is left.  With an auto-play block standing
    between [activeEffect] and [Instance?.], step 4 joins the two and the
    transformed content has a legacy access.  And for [reveal], the legacy
    import line followed by [evealPlayerRef.current?.] becomes a rewritten
    form with the last letter of the new-import block: four again. *)
Lemma rewritten_count_differs :
  let three :=
    T "activeEffectInstance?.a(); activeEffectInstance?.b(); activeEffectInstance?.c();" in
  let with_call := three ++ T " activeEffectInstance.play();" in
  let in_block :=
    T "activeEffectInstance?.a();" ++ nl
    ++ T "  // Auto-activate effect when context is ready" ++ nl
    ++ T "  useEffect(() => {" ++ nl
    ++ T "    activeEffectInstance?.b(); activeEffectInstance?.c();" ++ nl
    ++ T "  }, [effectContext, activeEffectInstance, movie]);" in
  let joined :=
    three ++ nl ++ T "activeEffect"
    ++ T "  // Auto-play effect when autoplay parameter is present" ++ nl
    ++ T "  useEffect(() => {" ++ nl ++ T "    start();" ++ nl
    ++ T "  }, [autoplay]);" ++ T "Instance?.d();" in
  let completed :=
    three ++ nl ++ old_import_line reveal_rule
    ++ T "evealPlayerRef.current?.x;" in
  dict_get EFFECTS (T "turntable") = Some turntable_rule
  ∧ dict_get EFFECTS (T "orbit") = Some orbit_rule
  ∧ dict_get EFFECTS (T "reveal") = Some reveal_rule
  ∧ occs legacy_access with_call = 3
  ∧ occs (rewritten_access turntable_rule)
      (refactor_content turntable_rule (T "turntable") with_call) = 4
  ∧ occs legacy_access in_block = 3
  ∧ occs (rewritten_access orbit_rule)
      (step3 orbit_rule (step2 orbit_rule (step1 orbit_rule in_block))) = 3
  ∧ occs (rewritten_access orbit_rule)
      (refactor_content orbit_rule (T "orbit") in_block) = 1
  ∧ occs legacy_access joined = 3
  ∧ occs legacy_access
      (step3 orbit_rule (step2 orbit_rule (step1 orbit_rule joined))) = 0
  ∧ occs legacy_access (refactor_content orbit_rule (T "orbit") joined) = 1
  ∧ occs legacy_access completed = 3
  ∧ occs (rewritten_access reveal_rule) completed = 0
  ∧ occs (rewritten_access reveal_rule)
      (refactor_content reveal_rule (T "reveal") completed) = 4.
Proof. by vm_compute. Qed.


(** *** The insertions in the transformed content *)

(** C10 (as amended): for every rule and every document, the insertion
    steps insert at every occurrence of their marker in the content they
    receive, the one step 4 returns: that content is pieces joined by the
    post-marker and step 5 returns the same pieces joined by the marker
    followed by the generated fragment, which is not empty; what step 5
    returns is pieces joined by the canvas marker and the transformed content
    is the same pieces joined by the generated markup, which ends with the
    canvas marker and has text before it.  In the transformed content the
    post-marker with its fragment and the post-marker itself both occur as
    often as the post-marker did after step 4, and the markup and the canvas
    marker as often as the canvas marker did.  Steps 1 to 3 neither remove
    nor form a marker, so these numbers are the n of the document whenever
    step 4 leaves as many markers as it received, as it does for every
    document without the comments its block patterns start with. *)
Theorem inserted_at_every_marker (effect_key : text) (config : Config)
    (content : text) :
  dict_get EFFECTS effect_key = Some config →
  let rewritten := step3 config (step2 config (step1 config content)) in
  let cleaned := step4 rewritten in
  let inserted := step5 config effect_key cleaned in
  let final := refactor_content config effect_key content in
  let fragment := initial_config config effect_key in
  let markup := controller_jsx config effect_key in
  fragment ≠ []
  ∧ (∃ before, before ≠ [] ∧ markup = before ++ canvas_marker)
  ∧ (∃ pieces,
       length pieces = S (occs insert_marker cleaned)
       ∧ cleaned = join insert_marker pieces
       ∧ inserted = join (insert_marker ++ fragment) pieces)
  ∧ (∃ pieces,
       length pieces = S (occs canvas_marker cleaned)
       ∧ inserted = join canvas_marker pieces
       ∧ final = join markup pieces)
  ∧ occs (insert_marker ++ fragment) final = occs insert_marker cleaned
  ∧ occs insert_marker final = occs insert_marker cleaned
  ∧ occs markup final = occs canvas_marker cleaned
  ∧ occs canvas_marker final = occs canvas_marker cleaned
  ∧ occs insert_marker rewritten = occs insert_marker content
  ∧ occs canvas_marker rewritten = occs canvas_marker content
  ∧ (occs insert_marker cleaned = occs insert_marker rewritten →
       occs (insert_marker ++ fragment) final = occs insert_marker content
       ∧ occs insert_marker final = occs insert_marker content)
  ∧ (occs canvas_marker cleaned = occs canvas_marker rewritten →
       occs markup final = occs canvas_marker content
       ∧ occs canvas_marker final = occs canvas_marker content)
  ∧ (blocks_absent content = true → cleaned = rewritten).
Proof.
  intros Hkey rewritten cleaned inserted final fragment markup.
  assert (negb (bool_decide (fragment = [])) = true
          ∧ (length canvas_marker <? length markup) = true
          ∧ forallb (fun mr => inert insert_marker mr.1 mr.2)
              (rewrites_before config) = true
          ∧ forallb (fun mr => inert canvas_marker mr.1 mr.2)
              (rewrites_before config) = true
          ∧ inert canvas_marker insert_marker (insert_marker ++ fragment)
            = true
          ∧ inert insert_marker canvas_marker markup = true
          ∧ inert (insert_marker ++ fragment) canvas_marker markup = true
          ∧ apartb (insert_marker ++ fragment) (insert_marker ++ fragment)
            = true
          ∧ apartb markup markup = true
          ∧ contains insert_marker (insert_marker ++ fragment) = true
          ∧ contains canvas_marker markup = true)
    as (Hfrag & Hlen & Hmb & Hcb & Hc5 & Hm6 & Hf6 & Hff & Hjj & Hmf & Hcj).
  { unfold fragment, markup.
    destruct (EFFECTS_cases _ _ Hkey) as [H | [H | [H | H]]];
      injection H as -> ->; by vm_compute. }
  apply negb_true_iff, bool_decide_eq_false in Hfrag.
  apply Nat.ltb_lt in Hlen.
  assert (insert_marker ≠ []) as Hne5 by done.
  assert (canvas_marker ≠ []) as Hne6 by done.
  assert (apart insert_marker insert_marker) as Hap5
    by (by apply apartb_sound; vm_compute).
  assert (apart canvas_marker canvas_marker) as Hap6
    by (by apply apartb_sound; vm_compute).
  destruct (markers_rejoined effect_key config cleaned Hkey)
    as (Hpieces5 & Hkept5 & _ & _).
  destruct (markers_rejoined effect_key config inserted Hkey)
    as (_ & _ & (before & pieces6 & Hend & Hlen6 & Hjoin6 & Hrep6) & Hkept6).
  fold inserted in Hpieces5, Hkept5. fold markup in Hend.
  assert (final = step6 config effect_key inserted) as Hfin by done.
  rewrite <- Hfin, <- Hend in Hrep6. rewrite <- Hfin in Hkept6.
  assert (occs canvas_marker inserted = occs canvas_marker cleaned) as Hci.
  { unfold inserted. rewrite step5_replace. by apply replace_inert. }
  assert (occs (insert_marker ++ fragment) final = occs insert_marker cleaned)
    as H1.
  { rewrite Hfin, step6_replace, replace_inert by done.
    unfold inserted. rewrite step5_replace.
    by apply occs_replace_holding; try apply apartb_sound. }
  assert (occs insert_marker final = occs insert_marker cleaned) as H2.
  { rewrite Hfin, step6_replace, replace_inert by done. exact Hkept5. }
  assert (occs markup final = occs canvas_marker cleaned) as H3.
  { rewrite Hfin, step6_replace. rewrite <- Hci.
    by apply occs_replace_holding; try apply apartb_sound. }
  assert (occs canvas_marker final = occs canvas_marker cleaned) as H4
    by (by rewrite Hkept6).
  assert (occs insert_marker rewritten = occs insert_marker content) as H5.
  { unfold rewritten. rewrite (steps_before _ effect_key) by done.
    by apply replace_all_inert. }
  assert (occs canvas_marker rewritten = occs canvas_marker content) as H6.
  { unfold rewritten. rewrite (steps_before _ effect_key) by done.
    by apply replace_all_inert. }
  split_and!; [exact Hfrag | | exact Hpieces5 | | exact H1 | exact H2
               | exact H3 | exact H4 | exact H5 | exact H6 | |
               | exact (step4_without_blocks effect_key config content Hkey)].
  - exists before. split; [|exact Hend].
    intros ->. rewrite Hend in Hlen. simpl in Hlen. lia.
  - exists pieces6. rewrite <- Hci. by split_and!.
  - intros Hsame. rewrite H1, H2, Hsame, H5. by split.
  - intros Hsame. rewrite H3, H4, Hsame, H6. by split.
Qed.

Lemma inserted_at_every_marker_witness :
  let content :=
    T "a" ++ insert_marker ++ T "b" ++ insert_marker ++ canvas_marker in
  let final := refactor_content explosion_rule (T "explosion") content in
  occs insert_marker content = 2
  ∧ occs canvas_marker content = 1
  ∧ occs (insert_marker ++ initial_config explosion_rule (T "explosion")) final
    = 2
  ∧ occs insert_marker final = 2
  ∧ occs (controller_jsx explosion_rule (T "explosion")) final = 1
  ∧ occs canvas_marker final = 1.
Proof.
  intros content final.
  destruct (inserted_at_every_marker (T "explosion") explosion_rule content)
    as (_ & _ & _ & _ & _ & _ & _ & _ & _ & _ & H5 & H6 & Hblocks);
    [reflexivity|].
  cbn zeta in Hblocks. specialize (Hblocks ltac:(by vm_compute)).
  destruct H5 as [Hf Hm]; [by rewrite Hblocks|].
  destruct H6 as [Hj Hc]; [by rewrite Hblocks|].
  assert (occs insert_marker content = 2) as Hn5 by (by vm_compute).
  assert (occs canvas_marker content = 1) as Hn6 by (by vm_compute).
  unfold final. rewrite Hf, Hm, Hj, Hc. by split_and!.
Defined.

(** C10 (as stated) fails: the post-marker is itself a closing line of the
    animation-loop pattern of step 4.  On a page where it closes such a
    block the marker occurs once, step 4 removes the block with the marker,
    and the transformed content has neither the marker nor the fragment;
    the same happens to a canvas marker inside an auto-play block. *)
Lemma marker_removed_by_step4 :
  let closing :=
    T "  // Animation loop - tick the active effect on every frame" ++ nl
    ++ T "  useEffect(() => {" ++ nl ++ T "    tick();" ++ nl
    ++ insert_marker ++ nl ++ T "rest" in
  let inside :=
    T "  // Auto-play effect when autoplay parameter is present" ++ nl
    ++ T "  useEffect(() => {" ++ nl ++ canvas_marker ++ nl
    ++ T "  }, [autoplay]);" in
  dict_get EFFECTS (T "turntable") = Some turntable_rule
  ∧ occs insert_marker closing = 1
  ∧ refactor_content turntable_rule (T "turntable") closing = nl ++ T "rest"
  ∧ occs insert_marker (refactor_content turntable_rule (T "turntable") closing)
    = 0
  ∧ contains (T "handleEffectComplete")
      (refactor_content turntable_rule (T "turntable") closing) = false
  ∧ occs canvas_marker inside = 1
  ∧ refactor_content turntable_rule (T "turntable") inside = []
  ∧ occs canvas_marker (refactor_content turntable_rule (T "turntable") inside)
    = 0.
Proof. by vm_compute. Qed.

(** *** Missing files and the rest of the batch *)

(** C7: a file that does not exist stops [refactor_file] before any step:
    whatever the key, the call returns [False] and the files are as before.
    [main] then goes on with the remaining files: for every script directory
    and every file system it returns (nothing is raised), [results] names
    the four files in order, the summary has one line per result, no file
    is created, and every missing file is recorded as failed.  Every page,
    whichever pages before it are missing, gets the verdict and the content
    that [refactor_file] alone gives it on the original files: the existing
    pages end with the content [refactor_content] computes from their own,
    and no other path is touched. *)
Theorem missing_file_skipped (script_dir : Path) (fs : files) :
  (∀ filepath effect_key, fs !! filepath = None →
     refactor_file fs filepath effect_key = Returned (fs, false))
  ∧ ∃ fs' results,
      main script_dir fs = Returned (fs', results, summary results)
      ∧ results.*1 = name <$> (files_to_refactor script_dir).*1
      ∧ length (summary results) = length (files_to_refactor script_dir)
      ∧ (∀ p, fs' !! p = None ↔ fs !! p = None)
      ∧ Forall2 (fun pk r => fs !! pk.1 = None →
                   r = (name pk.1, false)
                   ∧ T "❌ FAILED: " ++ name pk.1 ∈ summary results)
          (files_to_refactor script_dir) results
      ∧ results = (fun pk => (name pk.1, changed fs pk.1 pk.2))
                  <$> files_to_refactor script_dir
      ∧ (∀ p effect_key,
           (p, effect_key) ∈ files_to_refactor script_dir →
           ∃ config fs1,
             dict_get EFFECTS effect_key = Some config
             ∧ refactor_file fs p effect_key
               = Returned (fs1, changed fs p effect_key)
             ∧ fs' !! p = fs1 !! p
             ∧ fs' !! p = refactor_content config effect_key <$> fs !! p)
      ∧ (∀ p, p ∉ (files_to_refactor script_dir).*1 → fs' !! p = fs !! p).
Proof.
  split; [intros filepath effect_key; apply refactor_file_missing|].
  assert (Forall (fun pk => is_Some (dict_get EFFECTS pk.2))
            (files_to_refactor script_dir)) as Hkeys.
  { unfold files_to_refactor. cbn zeta. rewrite !Forall_cons.
    split_and!; try (by eexists); apply Forall_nil_2. }
  destruct (refactor_all_returns (files_to_refactor script_dir) Hkeys fs [])
    as (fs2 & rs & Hall2 & Hnames & Hdom & Hrs).
  destruct (refactor_all_effect (files_to_refactor script_dir) Hkeys
              (files_to_refactor_NoDup script_dir) fs [])
    as (fs' & Hall & Hout & Hin).
  rewrite app_nil_l in Hall, Hall2.
  assert (fs2 = fs' ∧ rs = (fun pk => (name pk.1, changed fs pk.1 pk.2))
                           <$> files_to_refactor script_dir) as [-> Hres].
  { rewrite Hall in Hall2. by injection Hall2. }
  exists fs', rs. unfold main. rewrite Hall2.
  cbn [mbind outcome_bind mret outcome_ret].
  split_and!; [done | exact Hnames | | exact Hdom | | exact Hres | | exact Hout].
  - unfold summary. rewrite length_fmap.
    by rewrite <- (length_fmap fst rs), Hnames, !length_fmap.
  - assert (Forall2 (fun pk r => r.1 = name pk.1)
              (files_to_refactor script_dir) rs) as Hn
      by (by apply names_Forall2).
    assert (∀ r, r ∈ rs → r.2 = false →
              T "❌ FAILED: " ++ r.1 ∈ summary rs) as Hsum.
    { intros [n b] Hmem Hb. simpl in Hb. subst b. unfold summary.
      apply list_elem_of_fmap. exists (n, false). split; [done | done]. }
    by apply failed_lines.
  - intros p effect_key Hmem.
    rewrite Forall_forall in Hkeys.
    destruct (Hkeys (p, effect_key) Hmem) as [config Hkey]. cbn [snd] in Hkey.
    destruct (refactor_file_effect fs p effect_key config Hkey)
      as (fs1 & Hrun & Hhere & _).
    exists config, fs1. split_and!; [done | done | | by eapply Hin].
    rewrite Hhere. by eapply Hin.
Qed.

Lemma missing_file_skipped_witness :
  let page (filename : text) : Path :=
    [T "src"; T "pages"; T "movies"; filename] in
  let fs : files := {[ page (T "RevealMoviePage.tsx") := old_state ]} in
  ∃ fs',
    main [] fs
    = Returned (fs',
                [ (T "TurntableMoviePage.tsx", false);
                  (T "RevealMoviePage.tsx", true);
                  (T "OrbitMoviePage.tsx", false);
                  (T "ExplosionMoviePage.tsx", false) ],
                [ T "❌ FAILED: TurntableMoviePage.tsx";
                  T "✅ SUCCESS: RevealMoviePage.tsx";
                  T "❌ FAILED: OrbitMoviePage.tsx";
                  T "❌ FAILED: ExplosionMoviePage.tsx" ])
    ∧ fs' !! page (T "RevealMoviePage.tsx") = Some (new_state reveal_rule)
    ∧ fs' !! page (T "TurntableMoviePage.tsx") = None.
Proof.
  intros page fs.
  destruct (missing_file_skipped [] fs)
    as (_ & fs' & results & Hmain & _ & _ & Hdom & _ & Hres & Hpages & _).
  assert (∀ filename, filename ≠ T "RevealMoviePage.tsx" →
            fs !! page filename = None) as Hmissing.
  { intros filename Hne. apply lookup_singleton_ne.
    intros H. apply Hne. by injection H. }
  assert (changed fs (page (T "TurntableMoviePage.tsx")) (T "turntable")
          = false) as Ht
    by (unfold changed; by rewrite Hmissing by (by vm_compute)).
  assert (changed fs (page (T "OrbitMoviePage.tsx")) (T "orbit") = false)
    as Ho by (unfold changed; by rewrite Hmissing by (by vm_compute)).
  assert (changed fs (page (T "ExplosionMoviePage.tsx")) (T "explosion")
          = false) as He
    by (unfold changed; by rewrite Hmissing by (by vm_compute)).
  assert (changed fs (page (T "RevealMoviePage.tsx")) (T "reveal") = true)
    as Hr.
  { unfold changed, fs. rewrite lookup_singleton_eq.
    change (dict_get EFFECTS (T "reveal")) with (Some reveal_rule).
    apply bool_decide_eq_true_2. by vm_compute. }
  assert (results
          = [ (T "TurntableMoviePage.tsx", false);
              (T "RevealMoviePage.tsx", true);
              (T "OrbitMoviePage.tsx", false);
              (T "ExplosionMoviePage.tsx", false) ]) as Hlist.
  { rewrite Hres. unfold files_to_refactor.
    cbn [app fmap list_fmap fst snd].
    fold (page (T "TurntableMoviePage.tsx")) (page (T "RevealMoviePage.tsx"))
      (page (T "OrbitMoviePage.tsx")) (page (T "ExplosionMoviePage.tsx")).
    rewrite Ht, Hr, Ho, He. repeat f_equal. }
  exists fs'. split_and!.
  - rewrite Hmain, Hlist. reflexivity.
  - destruct (Hpages (page (T "RevealMoviePage.tsx")) (T "reveal"))
      as (config & fs1 & Hkey & _ & _ & Hhere).
    { unfold files_to_refactor. cbn [app]. apply list_elem_of_further, list_elem_of_here. }
    assert (config = reveal_rule) as -> by (by injection Hkey).
    rewrite Hhere. unfold fs. rewrite lookup_singleton_eq.
    cbn [fmap option_fmap option_map]. f_equal.
  - apply Hdom, Hmissing. by vm_compute.
Defined.

End PipelineFacts.
